(** * The ctfd provisioning package and the event commands' deadlines

    A shallow embedding of package [ctfd] (instance construction, teardown,
    nonce extraction, flag seeding and the readiness poll) and of the
    deadlines of the [event] sub-commands of the command line client.

    Calls that leave the package (the container runtime, the file system,
    the HTTP transport, the clock) are answered by an environment [Env];
    every such call is appended to a history, and the environment's answer
    may depend on the whole history so far. *)

From Stdlib Require Import ZArith NArith Ascii String List Lia.
From stdpp Require Import gmap strings list pretty.

Local Open Scope string_scope.
Local Open Scope list_scope.

(** ** package regexp: the fragment used by NONCEREGEXP *)

(** A text is a sequence of bytes. Package regexp reads it rune by rune,
    but the patterns here name ASCII bytes only, and their one open class,
    the dot, is every rune but the line feed: a byte inside a multi-byte
    or ill-formed UTF-8 sequence is neither a line feed nor a quote nor a
    letter, so matching byte by byte finds the same offsets. *)

Module Regexp.

(** One item of a pattern that is a plain sequence: a literal byte, a
    greedy repetition of a one-byte class, or a bracket of the (single)
    capture group. *)
Inductive node :=
| Lit (c : ascii)
| Star (cls : ascii -> bool)
| Plus (cls : ascii -> bool)
| GroupOpen
| GroupClose.

Definition regexp := list node.

(** Byte offsets of group 1. *)
Definition group := (nat * nat)%type.

(** What is left to match: the rest of the text, the offset reached and
    the group's offsets so far; the answer is the end of the match. *)
Definition cont := list ascii -> nat -> group -> option (nat * group).

(** Greedy repetition: take one more byte of the class first, and come
    back to the shorter repetition only when the rest fails. *)
Fixpoint greedy (cls : ascii -> bool) (k : cont)
    (s : list ascii) (pos : nat) (g : group) : option (nat * group) :=
  match s with
  | c :: s' =>
      if cls c then
        match greedy cls k s' (S pos) g with
        | Some r => Some r
        | None => k s pos g
        end
      else k s pos g
  | [] => k s pos g
  end.

(** The match a backtracking search finds first, anchored at [pos]. *)
Fixpoint backtrack (re : regexp) : cont :=
  match re with
  | [] => fun _ pos g => Some (pos, g)
  | Lit c :: re' => fun s pos g =>
      match s with
      | x :: s' => if Ascii.eqb x c then backtrack re' s' (S pos) g else None
      | [] => None
      end
  | Star cls :: re' => greedy cls (backtrack re')
  | Plus cls :: re' => fun s pos g =>
      match s with
      | x :: s' => if cls x then greedy cls (backtrack re') s' (S pos) g else None
      | [] => None
      end
  | GroupOpen :: re' => fun s pos g => backtrack re' s pos (pos, snd g)
  | GroupClose :: re' => fun s pos g => backtrack re' s pos (fst g, pos)
  end.

(** A match: where it starts and ends, and where group 1 lies. *)
Record submatch := { m_start : nat; m_end : nat; g_start : nat; g_end : nat }.

(** Leftmost-first search: the earliest offset at which the backtracking
    search succeeds. [s] is the text from offset [pos] on. *)
Fixpoint search (re : regexp) (s : list ascii) (pos : nat) : option submatch :=
  match backtrack re s pos (0, 0) with
  | Some (e, g) =>
      Some {| m_start := pos; m_end := e; g_start := fst g; g_end := snd g |}
  | None =>
      match s with
      | [] => None
      | _ :: s' => search re s' (S pos)
      end
  end.

(** b[i:j] *)
Definition slice (b : list ascii) (i j : nat) : list ascii :=
  take (j - i) (drop i b).

(** [re.FindAllSubmatch(b, 1)]: at most one match, each match being the
    whole match followed by the text of group 1. *)
Definition FindAllSubmatch (re : regexp) (b : list ascii) : list (list (list ascii)) :=
  match search re b 0 with
  | None => []
  | Some m => [[slice b (m_start m) (m_end m); slice b (g_start m) (g_end m)]]
  end.

Definition lits (s : string) : regexp := map Lit (list_ascii_of_string s).

(** The character classes of the two patterns. *)
Definition is_blank (c : ascii) : bool := Ascii.eqb c " ".
Definition newline : ascii := ascii_of_nat 10.
Definition dquote : ascii := ascii_of_nat 34.
Definition any_char (c : ascii) : bool := negb (Ascii.eqb c newline).
(** Perl's \s in package regexp: tab, newline, form feed, carriage
    return and space. *)
Definition is_perl_space (c : ascii) : bool :=
  let n := nat_of_ascii c in
  (n =? 9)%nat || (n =? 10)%nat || (n =? 12)%nat || (n =? 13)%nat || (n =? 32)%nat.

End Regexp.

Import Regexp.

(** regexp.MustCompile(`csrf_nonce[ ]*=[ ]*"(.+)"`) *)
Definition NONCEREGEXP : regexp :=
  lits "csrf_nonce" ++ [Star is_blank] ++ lits "=" ++ [Star is_blank]
    ++ [Lit dquote; GroupOpen; Plus any_char; GroupClose; Lit dquote].

(** The pattern as the specification words it: \s in place of [ ]. *)
Definition NONCEREGEXP_spec : regexp :=
  lits "csrf_nonce" ++ [Star is_perl_space] ++ lits "=" ++ [Star is_perl_space]
    ++ [Lit dquote; GroupOpen; Plus any_char; GroupClose; Lit dquote].

(** ** Data *)

(** Errors, told apart the way the code tells them apart: by identity
    (the sentinel), by dynamic type (net.Error) or not at all. *)
Inductive error :=
| ServerUnavailableErr                  (* errors.New("Server is unavailable") *)
| Errorf_nonce                          (* fmt.Errorf("Unable to find nonce in page") *)
| Errorf_status (code : Z)              (* fmt.Errorf("Unxpected status code: %d", code) *)
| url_Error (msg : string)              (* *url.Error, which satisfies net.Error *)
| foreign_error (msg : string).         (* an error of docker, os, ioutil or cookiejar *)

(** err.(type) is net.Error; a nil error has no dynamic type. *)
Definition is_net_Error (err : error + unit) : bool :=
  match err with
  | inl (url_Error _) => true
  | _ => false
  end.

(** exercise.FlagConfig: the fields this package reads. *)
Record FlagConfig := {
  flag_Name : string;
  flag_Default : string;
  flag_Points : N                        (* uint *)
}.

Record Config := {
  Name : string;
  AdminUser : string;
  AdminEmail : string;
  AdminPass : string;
  Flags : list FlagConfig
}.

(** docker.ContainerConfig: the fields this package sets. *)
Record ContainerConfig := {
  Image : string;
  Mounts : list string;
  EnvVars : gmap string string;
  PortBindings : gmap string string;
  UseBridge : bool
}.

(** A docker.Container and a cookie jar are known by their identity. *)
Definition Container := nat.
Definition Jar := nat.

(** The HTTP clients in play: http.DefaultClient (used by http.Get) and
    the instance's client with its cookie jar. The cookies are kept
    outside: the environment sees which client made each request. *)
Inductive Client :=
| DefaultClient
| JarClient (jar : Jar).

(** A request body. The bytes of a multipart body depend on a random
    boundary and on the iteration order of a Go map, so the body is kept
    as the map of its fields. *)
Inductive Body :=
| NoBody
| URLEncoded (form : gmap string (list string))   (* url.Values, Content-Type application/x-www-form-urlencoded *)
| Multipart (fields : gmap string string).        (* Content-Type multipart/form-data *)

Record Request := {
  Method : string;
  URL : string;
  ReqBody : Body
}.

(** A response: the status and what reading the body to its end gives. *)
Record Response := {
  StatusCode : Z;
  RespBody : error + string
}.

Record ctfd := {
  conf : Config;
  cont : option Container;               (* nil until New has made the second container *)
  confDir : string;
  httpclient : Client
}.

(** ** The outside world *)

Inductive event :=
| cookiejar_New
| docker_GetDockerHostIP
| ioutil_TempDir (dir pfx : string)
| docker_NewContainer (c : ContainerConfig)
| Container_Start (c : Container)
| Container_Close (c : Container)
| Container_Stop (c : Container)
| Container_ID (c : Container)
| os_RemoveAll (path : string)
| http_Do (cl : Client) (req : Request)
| time_Sleep (d : N)
| log_Debug (name flag : string) (points : N).

(** The environment answers every call from the history of the calls made
    before it. An HTTP exchange also takes time (in nanoseconds), and its
    failure is a message: the client wraps it in a *url.Error. *)
Record Env := {
  env_cookiejar_New : list event -> error + Jar;
  env_GetDockerHostIP : list event -> error + string;
  env_TempDir : list event -> string -> string -> error + string;
  env_NewContainer : list event -> ContainerConfig -> error + Container;
  env_Start : list event -> Container -> error + unit;
  env_Close : list event -> Container -> error + unit;
  env_Stop : list event -> Container -> error + unit;
  env_ID : list event -> Container -> string;
  env_RemoveAll : list event -> string -> error + unit;
  env_RoundTrip : list event -> Client -> Request -> N * (string + Response)
}.

Record World := {
  history : list event;
  now : N                                (* nanoseconds *)
}.

(** A run returns a value in a new world, panics, or is cut short by the
    bound on the iterations of a loop. *)
Inductive outcome (A : Type) :=
| Returns (a : A) (w : World)
| Panics (w : World)
| OutOfFuel.
Arguments Returns {A} a w.
Arguments Panics {A} w.
Arguments OutOfFuel {A}.

Definition M (A : Type) := World -> outcome A.

Definition ret {A} (a : A) : M A := fun w => Returns a w.

Definition bind {A B} (m : M A) (k : A -> M B) : M B :=
  fun w =>
    match m w with
    | Returns a w' => k a w'
    | Panics w' => Panics w'
    | OutOfFuel => OutOfFuel
    end.

(** Go's [x, err := f(); if err != nil { return err }]. *)
Definition try {A B} (m : M (error + A)) (k : A -> M (error + B)) : M (error + B) :=
  bind m (fun r => match r with inl err => ret (inl err) | inr a => k a end).

Notation "'let*' x ':=' m 'in' k" := (bind m (fun x => k))
  (at level 10, x pattern, m at level 100, k at level 200).
Notation "'try*' x ':=' m 'in' k" := (try m (fun x => k))
  (at level 10, x pattern, m at level 100, k at level 200).

Definition nil_error : error + unit := inr tt.

Definition panic {A} : M A := fun w => Panics w.
Definition out_of_fuel {A} : M A := fun _ => OutOfFuel.

(** One call to the outside: [reply] reads the answer off the history and
    the call is recorded. The clock is moved by HTTP exchanges and by
    sleeping, which is all that the readiness poll measures against its
    deadline. *)
Definition call {A} (e : event) (reply : list event -> A) : M A :=
  fun w => Returns (reply (history w))
                   {| history := history w ++ [e]; now := now w |}.

Definition elapse (d : N) : M unit :=
  fun w => Returns tt {| history := history w; now := now w + d |}.

Definition time_Second : N := 1000000000.
Definition time_Minute : N := 60 * time_Second.

Section Program.

Variable env : Env.

(** *** Collaborators *)

Definition cookiejar_New_ : M (error + Jar) :=
  call cookiejar_New (env_cookiejar_New env).

Definition docker_GetDockerHostIP_ : M (error + string) :=
  call docker_GetDockerHostIP (env_GetDockerHostIP env).

Definition ioutil_TempDir_ (dir pfx : string) : M (error + string) :=
  call (ioutil_TempDir dir pfx) (fun h => env_TempDir env h dir pfx).

Definition docker_NewContainer_ (c : ContainerConfig) : M (error + Container) :=
  call (docker_NewContainer c) (fun h => env_NewContainer env h c).

Definition Container_Start_ (c : Container) : M (error + unit) :=
  call (Container_Start c) (fun h => env_Start env h c).

Definition Container_Close_ (c : Container) : M (error + unit) :=
  call (Container_Close c) (fun h => env_Close env h c).

Definition Container_Stop_ (c : Container) : M (error + unit) :=
  call (Container_Stop c) (fun h => env_Stop env h c).

Definition Container_ID_ (c : Container) : M string :=
  call (Container_ID c) (fun h => env_ID env h c).

Definition os_RemoveAll_ (path : string) : M (error + unit) :=
  call (os_RemoveAll path) (fun h => env_RemoveAll env h path).

(** A method called through a nil interface value panics. *)
Definition deref {A} (c : option Container) (f : Container -> M A) : M A :=
  match c with
  | Some c => f c
  | None => panic
  end.

(** Do of an http.Client: any error it returns is a url.Error. *)
Definition Client_Do (cl : Client) (req : Request) : M (error + Response) :=
  fun w =>
    let '(d, r) := env_RoundTrip env (history w) cl req in
    Returns (match r with
             | inl msg => inl (url_Error msg)
             | inr resp => inr resp
             end)
            {| history := history w ++ [http_Do cl req]; now := now w + d |}.

Definition GET (url : string) : Request :=
  {| Method := "GET"; URL := url; ReqBody := NoBody |}.

Definition Client_Get (cl : Client) (url : string) : M (error + Response) :=
  Client_Do cl (GET url).

Definition http_Get (url : string) : M (error + Response) :=
  Client_Get DefaultClient url.

Definition time_Sleep_ (d : N) : M unit :=
  let* _ := call (time_Sleep d) (fun _ => tt) in
  elapse d.

Definition time_Now : M N := fun w => Returns (now w) w.

Definition log_Debug_ (name flag : string) (points : N) : M unit :=
  call (log_Debug name flag points) (fun _ => tt).

(** *** package ctfd *)

(** NewRequest fails on a method or URL that does not parse; the methods
    and URLs of this package are constants that do, so requests are built
    as values. Writing a field into an in-memory multipart buffer does
    not fail either. *)

Definition getNonce (ctf : ctfd) (path : string) : M (error + string) :=
  try* resp := Client_Get (httpclient ctf) path in
  try* content := ret (RespBody resp) in
  let matches := FindAllSubmatch NONCEREGEXP (list_ascii_of_string content) in
  match matches with
  | [] => ret (inl Errorf_nonce)
  | m :: _ => ret (inr (string_of_list_ascii (nth 1 m [])))
  end.

(** The [values] map of createFlag and the request made of it. *)
Definition createFlag_endpoint : string :=
  "http://localhost:8000" +:+ "/admin/chal/new".

Definition createFlag_values (name flag : string) (points : N) (nonce : string)
  : gmap string string :=
  list_to_map [
    ("name", name);
    ("value", pretty points);
    ("key", flag);
    ("nonce", nonce);
    ("key_type[0]", "static");
    ("category", EmptyString);
    ("description", EmptyString);
    ("max_attempts", EmptyString);
    ("chaltype", "standard")
  ].

Definition createFlag_request (name flag : string) (points : N) (nonce : string) : Request :=
  {| Method := "POST"; URL := createFlag_endpoint;
     ReqBody := Multipart (createFlag_values name flag points nonce) |}.

Definition createFlag (ctf : ctfd) (name flag : string) (points : N) : M (error + unit) :=
  let endpoint := createFlag_endpoint in
  try* nonce := getNonce ctf endpoint in
  let req := createFlag_request name flag points nonce in
  try* resp := Client_Do (httpclient ctf) req in
  ret nil_error.

Definition waitForServer_timeout : N := time_Minute.

(** The loop of the polling goroutine runs at most once per second of the
    timeout, and once more to see the deadline passed. *)
Definition waitForServer_fuel : nat :=
  S (N.to_nat (waitForServer_timeout / time_Second)).

(** [select] on ctx.Done() with a default case: the channel is closed
    once the deadline is reached. *)
Definition ctx_Done (deadline : N) : M bool :=
  fun w => Returns (deadline <=? now w)%N w.

Definition poll (path : string) : M (error + unit) :=
  try* resp := http_Get path in
  if negb (StatusCode resp =? 200)%Z then
    ret (inl (Errorf_status (StatusCode resp)))
  else ret nil_error.

(** The goroutine's loop; what it sends on [errc] is what waitForServer
    returns, the channel having room for it. *)
Fixpoint waitForServer_loop (fuel : nat) (path : string) (deadline : N) : M (error + unit) :=
  match fuel with
  | O => out_of_fuel
  | S fuel' =>
      let* done := ctx_Done deadline in
      if done then ret (inl ServerUnavailableErr)
      else
        let* err := poll path in
        if is_net_Error err then
          let* _ := time_Sleep_ time_Second in
          waitForServer_loop fuel' path deadline
        else ret err
  end.

Definition waitForServer (path : string) : M (error + unit) :=
  let* start := time_Now in
  waitForServer_loop waitForServer_fuel path (start + waitForServer_timeout).

(** [for _, flag := range ctf.conf.Flags] of configureInstance *)
Fixpoint configureInstance_range (ctf : ctfd) (flags : list FlagConfig) : M (error + unit) :=
  match flags with
  | [] => ret nil_error
  | flag :: rest =>
      try* _ := createFlag ctf (flag_Name flag) (flag_Default flag) (flag_Points flag) in
      let* _ := log_Debug_ (flag_Name flag) (flag_Default flag) (flag_Points flag) in
      configureInstance_range ctf rest
  end.

(** The [form] of configureInstance and the request made of it. *)
Definition configureInstance_endpoint : string := "http://localhost:8000/setup".

Definition configureInstance_form (conf : Config) (nonce : string)
  : gmap string (list string) :=
  list_to_map [
    ("ctf_name", [Name conf]);
    ("name", [AdminUser conf]);
    ("password", [AdminPass conf]);
    ("email", [AdminEmail conf]);
    ("nonce", [nonce])
  ].

Definition configureInstance_request (conf : Config) (nonce : string) : Request :=
  {| Method := "POST"; URL := configureInstance_endpoint;
     ReqBody := URLEncoded (configureInstance_form conf nonce) |}.

Definition configureInstance (ctf : ctfd) : M (error + unit) :=
  let endpoint := configureInstance_endpoint in
  try* _ := waitForServer endpoint in
  try* nonce := getNonce ctf endpoint in
  let req := configureInstance_request (conf ctf) nonce in
  try* resp := Client_Do (httpclient ctf) req in
  configureInstance_range ctf (Flags (conf ctf)).

Definition baseConf (confDir hostIp : string) : ContainerConfig :=
  {| Image := "registry.sec-aau.dk/aau/ctfd";
     Mounts := [confDir +:+ "/:/opt/CTFd/CTFd/data"];
     EnvVars := {[ "ADMIN_HOST" := hostIp ]};
     PortBindings := ∅;
     UseBridge := true |}.

Definition initConf (confDir hostIp : string) : ContainerConfig :=
  let base := baseConf confDir hostIp in
  {| Image := Image base;
     Mounts := Mounts base;
     EnvVars := EnvVars base;
     PortBindings := {[ "8000/tcp" := "127.0.0.1:8000" ]};
     UseBridge := UseBridge base |}.

Definition finalConf (confDir hostIp : string) : ContainerConfig :=
  baseConf confDir hostIp.

Definition New (conf : Config) : M (error + ctfd) :=
  try* jar := cookiejar_New_ in
  let hc := JarClient jar in
  let ctf := {| conf := conf; cont := None; confDir := EmptyString; httpclient := hc |} in
  try* hostIp := docker_GetDockerHostIP_ in
  try* confDir := ioutil_TempDir_ EmptyString "ctfd" in
  let ctf := {| conf := conf; cont := None; confDir := confDir; httpclient := hc |} in
  try* c := docker_NewContainer_ (initConf confDir hostIp) in
  try* _ := Container_Start_ c in
  try* _ := configureInstance ctf in
  try* _ := Container_Close_ c in
  try* c := docker_NewContainer_ (finalConf confDir hostIp) in
  let ctf := {| conf := conf; cont := Some c; confDir := confDir; httpclient := hc |} in
  ret (inr ctf).

Definition Start (ctf : ctfd) : M (error + unit) :=
  deref (cont ctf) Container_Start_.

Definition Close (ctf : ctfd) : M (error + unit) :=
  try* _ := os_RemoveAll_ (confDir ctf) in
  try* _ := deref (cont ctf) Container_Close_ in
  ret nil_error.

Definition Stop (ctf : ctfd) : M (error + unit) :=
  deref (cont ctf) Container_Stop_.

Definition Flags_ (ctf : ctfd) : list FlagConfig := Flags (conf ctf).

Definition ID (ctf : ctfd) : M string :=
  deref (cont ctf) Container_ID_.

Definition ConnectProxy (ctf : ctfd) : ctfd * string :=
  (ctf,
   "location / {" +:+ String newline
     ("        proxy_pass http://{{.Host}}:8000/;" +:+ String newline "    }")).

End Program.

(** *** package cli: the deadlines of the event commands *)

Definition CmdEventCreate_timeout : N := time_Minute.
Definition CmdEventStop_timeout : N := 30 * time_Second.
Definition CmdEventList_timeout : N := time_Second.
Definition CmdEventTeams_timeout : N := time_Second.
Definition CmdEventTeamRestart_timeout : N := 60 * time_Second.

(** *** package cli: the event commands *)

Module Cli.

(** int32(x) for an int x: the low 32 bits, read as a signed number. *)
Definition int32 (x : Z) : Z := ((x + 2 ^ 31) mod 2 ^ 32 - 2 ^ 31)%Z.

(** pb.CreateEventRequest: the fields the client sets. *)
Record CreateEventRequest := {
  Name : string;
  Tag : string;
  Frontends : list string;
  Exercises : list string;
  Capacity : Z;                          (* int32 *)
  Buffer : Z                             (* int32 *)
}.

(** The requests of the event commands. *)
Inductive request :=
| CreateEvent (r : CreateEventRequest)
| StopEvent (tag : string)
| ListEventTeams (tag : string)
| RestartTeamLab (eventTag labTag : string).

(** pb.ListEventTeamsResponse_Teams: the fields the client prints. *)
Record Team := {
  team_Name : string;
  team_LabTag : string
}.

(** What the client does to the outside: an RPC under a context with a
    timeout, a Recv on the stream it opened, a line of output. *)
Inductive call :=
| rpc (timeout : N) (req : request)
| Recv
| PrintError (msg : string)
| Printf (out : string).

(** What stream.Recv() gives: a message (which the client drops), io.EOF,
    or another error, with its text. *)
Inductive received :=
| Message
| EOF
| Failed (msg : string).

(** The daemon and the network, answering from the calls made so far. *)
Record Server := {
  srv_open : list call -> N -> request -> string + unit;
  srv_recv : list call -> received;
  srv_teams : list call -> N -> string -> string + list Team
}.

(** A command ends with the calls it has made, panics, or is cut short by
    the bound on the iterations of its loop. *)
Inductive result :=
| Done (h : list call)
| Panic (h : list call)
| NoFuel (h : list call).

Definition calls (r : result) : list call :=
  match r with Done h | Panic h | NoFuel h => h end.

(** The flags of the create command, as cobra has parsed them. *)
Record CreateFlags := {
  name : string;
  buffer : Z;                            (* int *)
  capacity : Z;                          (* int *)
  frontends : list string;
  exercises : list string
}.

(** The [for] loop of the create, stop and restart commands. *)
Fixpoint Recv_loop (srv : Server) (fuel : nat) (h : list call) : result :=
  match fuel with
  | O => NoFuel h
  | S fuel' =>
      match srv_recv srv h with
      | EOF => Done (h ++ [Recv])
      | Failed msg => Done (h ++ [Recv; PrintError msg])
      | Message => Recv_loop srv fuel' (h ++ [Recv])
      end
  end.

Section Commands.

Variable srv : Server.
Variable fuel : nat.

Definition CmdEventCreate_Run (fl : CreateFlags) (args : list string) (h : list call) : result :=
  match args !! 0%nat with
  | None => Panic h
  | Some tag =>
      let req := CreateEvent {| Name := name fl; Tag := tag;
                                Frontends := frontends fl; Exercises := exercises fl;
                                Capacity := int32 (capacity fl);
                                Buffer := int32 (buffer fl) |} in
      match srv_open srv h CmdEventCreate_timeout req with
      | inl msg => Done (h ++ [rpc CmdEventCreate_timeout req; PrintError msg])
      | inr _ => Recv_loop srv fuel (h ++ [rpc CmdEventCreate_timeout req])
      end
  end.

Definition CmdEventStop_Run (args : list string) (h : list call) : result :=
  match args !! 0%nat with
  | None => Panic h
  | Some tag =>
      let req := StopEvent tag in
      match srv_open srv h CmdEventStop_timeout req with
      | inl msg => Done (h ++ [rpc CmdEventStop_timeout req; PrintError msg])
      | inr _ => Recv_loop srv fuel (h ++ [rpc CmdEventStop_timeout req])
      end
  end.

(** [for _, team := range r.Teams] of the teams command *)
Fixpoint CmdEventTeams_range (teams : list Team) : list call :=
  match teams with
  | [] => []
  | team :: rest =>
      Printf (team_Name team +:+ String newline EmptyString)
        :: Printf ("- " +:+ team_LabTag team +:+ String newline EmptyString)
        :: CmdEventTeams_range rest
  end.

Definition CmdEventTeams_Run (args : list string) (h : list call) : result :=
  match args !! 0%nat with
  | None => Panic h
  | Some tag =>
      match srv_teams srv h CmdEventTeams_timeout tag with
      | inl msg =>
          Done (h ++ [rpc CmdEventTeams_timeout (ListEventTeams tag); PrintError msg])
      | inr teams =>
          Done (h ++ rpc CmdEventTeams_timeout (ListEventTeams tag)
                  :: CmdEventTeams_range teams)
      end
  end.

Definition CmdEventTeamRestart_Run (args : list string) (h : list call) : result :=
  match args !! 0%nat with
  | None => Panic h
  | Some eventTag =>
      match args !! 1%nat with
      | None => Panic h
      | Some labTag =>
          let req := RestartTeamLab eventTag labTag in
          match srv_open srv h CmdEventTeamRestart_timeout req with
          | inl msg => Done (h ++ [rpc CmdEventTeamRestart_timeout req; PrintError msg])
          | inr _ => Recv_loop srv fuel (h ++ [rpc CmdEventTeamRestart_timeout req])
          end
      end
  end.

End Commands.

(** A cobra.Command: its Args validator, cobra.MinimumNArgs(n), the flags
    marked with MarkFlagRequired, and its Run. *)
Record Command := {
  MinimumNArgs : nat;
  RequiredFlags : list string;
  Run : Server -> nat -> list string -> list call -> result
}.

(** Why cobra does not run a command. *)
Inductive refusal :=
| TooFewArgs (min got : nat)             (* requires at least %d arg(s), only received %d *)
| RequiredFlagsNotSet (missing : list string).   (* required flag(s) ... not set *)

(** cobra's execute on a command line that parses: [changed] names the
    flags given on it, whatever their values. The arguments are validated
    first, then the required flags, and Run is called only when both
    checks pass. *)
Definition execute (cmd : Command) (srv : Server) (fuel : nat)
    (changed : list string) (args : list string) (h : list call) : refusal + result :=
  if (length args <? MinimumNArgs cmd)%nat
  then inl (TooFewArgs (MinimumNArgs cmd) (length args))
  else
    match filter (fun f => f ∉ changed) (RequiredFlags cmd) with
    | [] => inr (Run cmd srv fuel args h)
    | missing => inl (RequiredFlagsNotSet missing)
    end.

Definition CmdEventCreate (fl : CreateFlags) : Command :=
  {| MinimumNArgs := 1; RequiredFlags := ["name"];
     Run := fun srv fuel => CmdEventCreate_Run srv fuel fl |}.
Definition CmdEventStop : Command :=
  {| MinimumNArgs := 1; RequiredFlags := []; Run := CmdEventStop_Run |}.
Definition CmdEventTeams : Command :=
  {| MinimumNArgs := 1; RequiredFlags := []; Run := fun srv _ => CmdEventTeams_Run srv |}.
Definition CmdEventTeamRestart : Command :=
  {| MinimumNArgs := 2; RequiredFlags := []; Run := CmdEventTeamRestart_Run |}.

End Cli.

(** ** Words for the statements *)

(** *** Worlds and histories *)

(** The world after one more recorded call. *)
Definition record (e : event) (w : World) : World :=
  {| history := history w ++ [e]; now := now w |}.

(** The calls an outcome's world has seen. *)
Definition seen {A} (o : outcome A) : list event :=
  match o with
  | Returns _ w | Panics w => history w
  | OutOfFuel => []
  end.

(** Which calls a history holds. *)
Definition is_Start_of (c : Container) (e : event) : bool :=
  match e with Container_Start c' => Nat.eqb c c' | _ => false end.

Definition is_Container_call (e : event) : bool :=
  match e with
  | docker_NewContainer _ | Container_Start _ | Container_Close _
  | Container_Stop _ | Container_ID _ => true
  | _ => false
  end.

Definition is_http (e : event) : bool :=
  match e with http_Do _ _ => true | _ => false end.

Definition is_POST (e : event) : bool :=
  match e with http_Do _ req => String.eqb (Method req) "POST" | _ => false end.

Definition is_Sleep (e : event) : bool :=
  match e with time_Sleep _ => true | _ => false end.

Definition is_RemoveAll (e : event) : bool :=
  match e with os_RemoveAll _ => true | _ => false end.

(** *** Teardown and construction *)

(** What C1 asks of the calls Close makes: a removal of the data path
    comes only after a call that stops the container. *)
Definition removal_follows_container_close (new : list event) : Prop :=
  forall i path,
    new !! i = Some (os_RemoveAll path) ->
    exists j c, (j < i)%nat /\ new !! j = Some (Container_Close c).

(** The calls New makes up to the start of the setup container. *)
Definition New_prologue (dir ip : string) (c : Container) : list event :=
  [cookiejar_New; docker_GetDockerHostIP; ioutil_TempDir EmptyString "ctfd";
   docker_NewContainer (initConf dir ip); Container_Start c].

(** The environment lets New reach the start of the setup container [c],
    and answers that start with [started]. *)
Definition reaches_setup_start (env : Env) (h : list event)
    (jar : Jar) (ip dir : string) (c : Container) (started : error + unit) : Prop :=
  env_cookiejar_New env h = inr jar
  /\ env_GetDockerHostIP env (h ++ [cookiejar_New]) = inr ip
  /\ env_TempDir env (h ++ [cookiejar_New; docker_GetDockerHostIP]) EmptyString "ctfd"
     = inr dir
  /\ env_NewContainer env
       (h ++ [cookiejar_New; docker_GetDockerHostIP; ioutil_TempDir EmptyString "ctfd"])
       (initConf dir ip) = inr c
  /\ env_Start env
       (h ++ [cookiejar_New; docker_GetDockerHostIP; ioutil_TempDir EmptyString "ctfd";
              docker_NewContainer (initConf dir ip)]) c = started.

(** *** The readiness poll *)

Section PollWords.

Variable env : Env.
Variable path : string.

(** One probe, and one failed attempt with its backoff. *)
Definition probe : event := http_Do DefaultClient (GET path).
Definition backoff : list event := [probe; time_Sleep time_Second].

Fixpoint rounds (k : nat) : list event :=
  match k with
  | O => []
  | S k' => backoff ++ rounds k'
  end.

(** From history [h] on, the probes fail at the transport level one after
    the other, with the durations and messages listed in [fails]. *)
Definition fails_first (h : list event) (fails : list (N * string)) : Prop :=
  forall i d msg,
    fails !! i = Some (d, msg) ->
    env_RoundTrip env (h ++ rounds i) DefaultClient (GET path) = (d, inl msg).

(** The time those failed attempts and their backoffs take. *)
Fixpoint spent (fails : list (N * string)) : N :=
  match fails with
  | [] => 0
  | (d, _) :: rest => d + time_Second + spent rest
  end.

(** What the loop sends for a response. *)
Definition verdict (resp : Response) : error + unit :=
  if (StatusCode resp =? 200)%Z then nil_error
  else inl (Errorf_status (StatusCode resp)).

End PollWords.

(** *** Nonce fetch and flag seeding *)

(** What getNonce makes of a response. *)
Definition nonce_in (resp : Response) : error + string :=
  match RespBody resp with
  | inl err => inl err
  | inr content =>
      match FindAllSubmatch NONCEREGEXP (list_ascii_of_string content) with
      | [] => inl Errorf_nonce
      | m :: _ => inr (string_of_list_ascii (nth 1 m []))
      end
  end.

Section SeedingWords.

Variable env : Env.
Variable ctf : ctfd.

(** The calls of one round of the loop over the flags. *)
Definition fetch : event := http_Do (httpclient ctf) (GET createFlag_endpoint).

Definition submission (f : FlagConfig) (nonce : string) : Request :=
  createFlag_request (flag_Name f) (flag_Default f) (flag_Points f) nonce.

Definition submit (f : FlagConfig) (nonce : string) : event :=
  http_Do (httpclient ctf) (submission f nonce).

Definition logged (f : FlagConfig) : event :=
  log_Debug (flag_Name f) (flag_Default f) (flag_Points f).

(** The shape of the calls made for a list of flags: one round of fetch,
    submission and log line per flag, in the order of the list, to its
    end ([true]) or cut after the fetch or after the submission of some
    flag ([false]). *)
Inductive seeding_trace : list FlagConfig -> list event -> bool -> Prop :=
| seeding_done :
    seeding_trace [] [] true
| seeding_round f rest nonce tr ok :
    seeding_trace rest tr ok ->
    seeding_trace (f :: rest) (fetch :: submit f nonce :: logged f :: tr) ok
| seeding_cut_at_fetch f rest :
    seeding_trace (f :: rest) [fetch] false
| seeding_cut_at_submission f rest nonce :
    seeding_trace (f :: rest) [fetch; submit f nonce] false.

(** The error, if any, with which the exchange [e] ends when made after
    history [h]; for a fetch that includes the search for the nonce. *)
Definition exchange_error (h : list event) (e : event) : option error :=
  match e with
  | http_Do cl req =>
      match snd (env_RoundTrip env h cl req) with
      | inl msg => Some (url_Error msg)
      | inr resp =>
          if String.eqb (Method req) "GET" then
            match nonce_in resp with inl err => Some err | inr _ => None end
          else None
      end
  | _ => None
  end.

End SeedingWords.

Definition succeeded (r : error + unit) : bool :=
  match r with inr _ => true | inl _ => false end.

(** *** Where a page holds a nonce *)

(** Every byte of the text is in the class. *)
Definition all_in (cls : ascii -> bool) (l : list ascii) : Prop :=
  Forall (fun c => cls c = true) l.

(** The end of NONCEREGEXP: the group and the closing quote. *)
Definition value : regexp := [GroupOpen; Plus any_char; GroupClose; Lit dquote].

(** The text [s] begins with an assignment to csrf_nonce: the name, blanks,
    the equals sign, blanks, and a quoted value [v] that is not empty and
    stays on one line. *)
Definition nonce_prefix (s sp1 sp2 v post : list ascii) : Prop :=
  s = list_ascii_of_string "csrf_nonce" ++ sp1 ++ "="%char :: sp2
        ++ dquote :: v ++ dquote :: post
  /\ Forall (fun c => c = " "%char) sp1
  /\ Forall (fun c => c = " "%char) sp2
  /\ v <> []
  /\ Forall (fun c => c <> newline) v.

(** Such an assignment lies in the body, after [pre]. *)
Definition nonce_occurrence (body pre sp1 sp2 v post : list ascii) : Prop :=
  exists s, body = pre ++ s /\ nonce_prefix s sp1 sp2 v post.

(** ** Environments to run the programs in *)

Module Sample.

(** A page that carries a nonce the way the platform's pages do. *)
Definition page (nonce : string) : string :=
  "<script>var csrf_nonce = " +:+ String dquote (nonce +:+ String dquote ";</script>").

(** An exchange of five milliseconds that ends in a response. *)
Definition response (status : Z) (body : string) : N * (string + Response) :=
  (5000000%N, inr {| StatusCode := status; RespBody := inr body |}).

(** Every collaborator succeeds; containers are named by the number of
    calls made before their creation; [rt] answers the HTTP exchanges. *)
Definition env (rt : list event -> Client -> Request -> N * (string + Response)) : Env :=
  {| env_cookiejar_New := fun _ => inr 7%nat;
     env_GetDockerHostIP := fun _ => inr "172.17.0.1";
     env_TempDir := fun _ _ pfx => inr ("/tmp/" +:+ pfx +:+ "123");
     env_NewContainer := fun h _ => inr (length h);
     env_Start := fun _ _ => inr tt;
     env_Close := fun _ _ => inr tt;
     env_Stop := fun _ _ => inr tt;
     env_ID := fun _ _ => "c0ffee";
     env_RemoveAll := fun _ _ => inr tt;
     env_RoundTrip := rt |}.

Definition with_Start (f : list event -> Container -> error + unit) (e : Env) : Env :=
  {| env_cookiejar_New := env_cookiejar_New e;
     env_GetDockerHostIP := env_GetDockerHostIP e;
     env_TempDir := env_TempDir e;
     env_NewContainer := env_NewContainer e;
     env_Start := f;
     env_Close := env_Close e;
     env_Stop := env_Stop e;
     env_ID := env_ID e;
     env_RemoveAll := env_RemoveAll e;
     env_RoundTrip := env_RoundTrip e |}.

Definition with_RemoveAll (f : list event -> string -> error + unit) (e : Env) : Env :=
  {| env_cookiejar_New := env_cookiejar_New e;
     env_GetDockerHostIP := env_GetDockerHostIP e;
     env_TempDir := env_TempDir e;
     env_NewContainer := env_NewContainer e;
     env_Start := env_Start e;
     env_Close := env_Close e;
     env_Stop := env_Stop e;
     env_ID := env_ID e;
     env_RemoveAll := f;
     env_RoundTrip := env_RoundTrip e |}.

(** The platform answers every request with 200 and a page with a nonce. *)
Definition healthy : Env := env (fun _ _ _ => response 200 (page "abc")).

(** The platform serves its pages but rejects every POST with 403. *)
Definition rejecting : Env :=
  env (fun _ _ req =>
         if String.eqb (Method req) "POST" then response 403 "Forbidden"
         else response 200 (page "abc")).

(** The platform answers every request with 204 and no body. *)
Definition no_content : Env := env (fun _ _ _ => response 204 EmptyString).

(** The first exchange takes 61 seconds and is then answered with 200. *)
Definition slow : Env :=
  env (fun h _ _ =>
         match h with
         | [] => ((61 * time_Second)%N, inr {| StatusCode := 200; RespBody := inr (page "abc") |})
         | _ => response 200 (page "abc")
         end).

(** The first exchange times out after 60 seconds; the platform is up
    from then on. *)
Definition stalled : Env :=
  env (fun h _ _ =>
         match h with
         | [] => ((60 * time_Second)%N, inl "i/o timeout")
         | _ => response 200 (page "abc")
         end).

(** The first two connections are refused within a millisecond, the
    platform is up from the third on. *)
Definition late : Env :=
  env (fun h _ _ =>
         if (length h <? 4)%nat then (1000000%N, inl "connection refused")
         else response 200 (page "abc")).

(** Every connection is refused, after half a second. *)
Definition down : Env :=
  env (fun _ _ _ => (500000000%N, inl "connection refused")).

(** A page whose nonce is set off by tabs, and a platform that serves it. *)
Definition tabbed_page : string :=
  "csrf_nonce" +:+ String (ascii_of_nat 9) ("=" +:+ String (ascii_of_nat 9)
    (String dquote ("abc" +:+ String dquote EmptyString))).

Definition tabbing : Env := env (fun _ _ _ => response 200 tabbed_page).

Definition flagA : FlagConfig :=
  {| flag_Name := "A"; flag_Default := "flag{a}"; flag_Points := 100 |}.
Definition flagB : FlagConfig :=
  {| flag_Name := "B"; flag_Default := "flag{b}"; flag_Points := 200 |}.

Definition demo : Config :=
  {| Name := "demo"; AdminUser := "admin"; AdminEmail := "admin@example.org";
     AdminPass := "secret"; Flags := [flagA; flagB] |}.

Definition boot : World := {| history := []; now := 0 |}.

(** An instance as New returns it. *)
Definition instance : ctfd :=
  {| conf := demo; cont := Some 15%nat; confDir := "/tmp/ctfd123";
     httpclient := JarClient 7%nat |}.

End Sample.

(** ** Words for further properties *)

(** The platform serves its pages, and every POST ends in a transport
    error. *)
Definition posts_reset : Env :=
  Sample.env (fun _ _ req =>
                if String.eqb (Method req) "POST"
                then (5000000%N, inl "connection reset by peer")
                else Sample.response 200 (Sample.page "abc")).

(** A program that, from any world, returns having made calls that
    satisfy [Q]. *)
Definition traced {A} (Q : list event -> Prop) (m : M A) : Prop :=
  forall w, exists a w' tr,
    m w = Returns a w' /\ history w' = history w ++ tr /\ Q tr.

(** The calls of the readiness poll: probes of [path] through the default
    client and sleeps of one second. *)
Definition is_poll_call (path : string) (e : event) : bool :=
  match e with
  | http_Do DefaultClient req =>
      String.eqb (Method req) "GET" && String.eqb (URL req) path
      && match ReqBody req with NoBody => true | _ => false end
  | time_Sleep d => (d =? time_Second)%N
  | _ => false
  end.

(** A call that configureInstance may make for an instance whose client
    is [session]: an exchange through that client, a probe of the setup
    page through the default client, a sleep of one second, a log line. *)
Definition configure_ok (session : Client) (e : event) : Prop :=
  match e with
  | http_Do cl req =>
      cl = session \/ (cl = DefaultClient /\ req = GET configureInstance_endpoint)
  | time_Sleep d => d = time_Second
  | log_Debug _ _ _ => True
  | _ => False
  end.

(** Every POST comes right after a GET of the same URL through the same
    client. *)
Definition posts_follow_fetch (tr : list event) : Prop :=
  forall i cl req,
    tr !! i = Some (http_Do cl req) ->
    Method req = "POST" ->
    exists j, i = S j /\ tr !! j = Some (http_Do cl (GET (URL req))).

Definition configure_trace (session : Client) (tr : list event) : Prop :=
  Forall (configure_ok session) tr /\ posts_follow_fetch tr.

(** The calls of a run of New and its result: the run stops within the
    prologue, or while configuring, or at the close of the setup
    container, or at the creation of the serving container, or it goes
    through. *)
Inductive New_calls (conf : Config) : error + ctfd -> list event -> Prop :=
| New_stops_early dir ip c n err :
    (1 <= n <= 5)%nat ->
    New_calls conf (inl err) (take n (New_prologue dir ip c))
| New_stops_configuring dir ip c jar ctr err :
    configure_trace (JarClient jar) ctr ->
    New_calls conf (inl err) (New_prologue dir ip c ++ ctr)
| New_stops_closing dir ip c jar ctr err :
    configure_trace (JarClient jar) ctr ->
    New_calls conf (inl err) (New_prologue dir ip c ++ ctr ++ [Container_Close c])
| New_stops_creating dir ip c jar ctr err :
    configure_trace (JarClient jar) ctr ->
    New_calls conf (inl err)
      (New_prologue dir ip c ++ ctr
         ++ [Container_Close c; docker_NewContainer (finalConf dir ip)])
| New_goes_through dir ip c jar ctr c' :
    configure_trace (JarClient jar) ctr ->
    New_calls conf
      (inr {| conf := conf; cont := Some c'; confDir := dir;
              httpclient := JarClient jar |})
      (New_prologue dir ip c ++ ctr
         ++ [Container_Close c; docker_NewContainer (finalConf dir ip)]).

(** The container calls of a whole run of New. *)
Definition New_lifecycle (dir ip : string) (c : Container) : list event :=
  [docker_NewContainer (initConf dir ip); Container_Start c;
   Container_Close c; docker_NewContainer (finalConf dir ip)].

(** *** The event commands *)

(** After history [h], the stream gives [n] messages and then [last],
    which is io.EOF or an error. *)
Definition stream_yields (srv : Cli.Server) (h : list Cli.call) (n : nat)
    (last : Cli.received) : Prop :=
  (forall i, (i < n)%nat -> Cli.srv_recv srv (h ++ replicate i Cli.Recv) = Cli.Message)
  /\ Cli.srv_recv srv (h ++ replicate n Cli.Recv) = last
  /\ last <> Cli.Message.

(** What the loop prints when the stream ends with [last]. *)
Definition printed_at_end (last : Cli.received) : list Cli.call :=
  match last with
  | Cli.Failed msg => [Cli.PrintError msg]
  | _ => []
  end.

(** The three commands that read a stream, run on arguments that begin
    with the ones they read, with the timeout and the request of their
    RPC. *)
Inductive streaming_command :
  (Cli.Server -> nat -> list Cli.call -> Cli.result) -> N -> Cli.request -> Prop :=
| streaming_create fl tag rest :
    streaming_command
      (fun srv fuel => Cli.CmdEventCreate_Run srv fuel fl (tag :: rest))
      CmdEventCreate_timeout
      (Cli.CreateEvent {| Cli.Name := Cli.name fl; Cli.Tag := tag;
                          Cli.Frontends := Cli.frontends fl;
                          Cli.Exercises := Cli.exercises fl;
                          Cli.Capacity := Cli.int32 (Cli.capacity fl);
                          Cli.Buffer := Cli.int32 (Cli.buffer fl) |})
| streaming_stop tag rest :
    streaming_command
      (fun srv fuel => Cli.CmdEventStop_Run srv fuel (tag :: rest))
      CmdEventStop_timeout (Cli.StopEvent tag)
| streaming_restart eventTag labTag rest :
    streaming_command
      (fun srv fuel => Cli.CmdEventTeamRestart_Run srv fuel (eventTag :: labTag :: rest))
      CmdEventTeamRestart_timeout (Cli.RestartTeamLab eventTag labTag).

(** A server for the examples: the stream gives two messages and ends. *)
Definition two_messages : Cli.Server :=
  {| Cli.srv_open := fun _ _ _ => inr tt;
     Cli.srv_recv := fun h => if (length h <? 3)%nat then Cli.Message else Cli.EOF;
     Cli.srv_teams := fun _ _ _ => inr [] |}.

(** ** Running the programs *)

Lemma bind_Returns {A B} (m : M A) (k : A -> M B) w a w' :
  m w = Returns a w' -> bind m k w = k a w'.
Proof. intros H. unfold bind. now rewrite H. Qed.

Lemma try_inr {A B} (m : M (error + A)) (k : A -> M (error + B)) w a w' :
  m w = Returns (inr a) w' -> try m k w = k a w'.
Proof. intros H. unfold try. now rewrite (bind_Returns _ _ _ _ _ H). Qed.

Lemma try_inl {A B} (m : M (error + A)) (k : A -> M (error + B)) w err w' :
  m w = Returns (inl err) w' -> try m k w = Returns (inl err) w'.
Proof. intros H. unfold try. now rewrite (bind_Returns _ _ _ _ _ H). Qed.

Lemma call_Returns {A} (e : event) (reply : list event -> A) w :
  call e reply w = Returns (reply (history w)) (record e w).
Proof. reflexivity. Qed.

(** Rewrite with an answer of the environment; histories are kept as
    [history w ++ new calls]. *)
Ltac answer H :=
  rewrite H; cbn [history now ret]; rewrite <- ?app_assoc; cbn [app].

(** ** Teardown *)

(** C10: if removing the data directory fails, Close returns that error at
    once, having made no call on the container; and whenever Close does
    call the container's Close, the removal was made before it and had
    succeeded. *)
Theorem Close_removal_failure_skips_container (env : Env) (ctf : ctfd) (w : World) :
  (forall err,
      env_RemoveAll env (history w) (confDir ctf) = inl err ->
      Close env ctf w = Returns (inl err) (record (os_RemoveAll (confDir ctf)) w))
  /\ (forall c new,
        seen (Close env ctf w) = history w ++ new ->
        In (Container_Close c) new ->
        env_RemoveAll env (history w) (confDir ctf) = inr tt
        /\ cont ctf = Some c
        /\ new = [os_RemoveAll (confDir ctf); Container_Close c]).
Proof.
  split.
  - intros err H.
    apply try_inl. unfold os_RemoveAll_. rewrite call_Returns. now rewrite H.
  - intros c new Hseen Hin.
    unfold Close, try, bind, os_RemoveAll_, call in Hseen.
    destruct (env_RemoveAll env (history w) (confDir ctf)) as [err|[]] eqn:Hrm;
      cbn [seen ret history] in Hseen.
    + apply app_inv_head in Hseen. subst new.
      destruct Hin as [Hin|[]]. discriminate Hin.
    + destruct (cont ctf) as [c'|]; cbn [deref] in Hseen.
      * unfold Container_Close_, call in Hseen. cbn [history now] in Hseen.
        assert (Hnew : new = [os_RemoveAll (confDir ctf); Container_Close c']).
        { destruct (env_Close env _ c'); cbn [seen ret history] in Hseen;
            rewrite <- app_assoc in Hseen; apply app_inv_head in Hseen;
            now subst new. }
        subst new. destruct Hin as [Hin|[Hin|[]]]; [discriminate Hin|].
        injection Hin as ->. auto.
      * cbn [panic seen history] in Hseen.
        apply app_inv_head in Hseen. subst new.
        destruct Hin as [Hin|[]]. discriminate Hin.
Qed.

Lemma Close_removal_failure_skips_container_witness :
  let env := Sample.with_RemoveAll (fun _ _ => inl (foreign_error "permission denied"))
                                   Sample.healthy in
  Close env Sample.instance Sample.boot
  = Returns (inl (foreign_error "permission denied"))
            {| history := [os_RemoveAll "/tmp/ctfd123"]; now := 0 |}.
Proof.
  intros env.
  exact (proj1 (Close_removal_failure_skips_container env Sample.instance Sample.boot)
               (foreign_error "permission denied") eq_refl).
Defined.

(** C1, as stated, fails: on an instance whose teardown succeeds, the data
    path is removed first and the container is closed after it. *)
Lemma Close_removes_before_container_close :
  Close Sample.healthy Sample.instance Sample.boot
  = Returns nil_error
            {| history := [os_RemoveAll "/tmp/ctfd123"; Container_Close 15]; now := 0 |}
  /\ ~ removal_follows_container_close
        [os_RemoveAll "/tmp/ctfd123"; Container_Close 15].
Proof.
  split; [reflexivity|].
  intros H. destruct (H 0%nat "/tmp/ctfd123" eq_refl) as (j & c & Hj & _). lia.
Qed.

(** C1, amended: Close first removes the data path; when the removal
    fails, that error is returned and the container is left alone; when
    it succeeds, the container's handle is closed next, by one call of its
    Close and no call of Stop, and the result of that call is returned.
    The removal always precedes the container's close. *)
Theorem Close_removes_then_closes (env : Env) (ctf : ctfd) (c : Container) (w : World) :
  cont ctf = Some c ->
  Close env ctf w =
    match env_RemoveAll env (history w) (confDir ctf) with
    | inl err =>
        Returns (inl err)
                {| history := history w ++ [os_RemoveAll (confDir ctf)]; now := now w |}
    | inr _ =>
        Returns (env_Close env (history w ++ [os_RemoveAll (confDir ctf)]) c)
                {| history := history w ++ [os_RemoveAll (confDir ctf); Container_Close c];
                   now := now w |}
    end.
Proof.
  intros Hc. unfold Close, try, bind, os_RemoveAll_, call. rewrite Hc.
  destruct (env_RemoveAll env (history w) (confDir ctf)) as [err|[]]; [reflexivity|].
  cbn [ret deref Container_Close_ call history now].
  destruct (env_Close env _ c) as [err|[]]; cbn [ret]; now rewrite <- app_assoc.
Qed.

Lemma Close_removes_then_closes_witness :
  Close Sample.healthy Sample.instance Sample.boot
  = Returns (inr tt)
            {| history := [os_RemoveAll "/tmp/ctfd123"; Container_Close 15]; now := 0 |}.
Proof.
  exact (Close_removes_then_closes Sample.healthy Sample.instance 15%nat Sample.boot eq_refl).
Defined.

(** ** Construction *)

(** New, once the setup container has started, is the rest of its body. *)
Lemma New_after_setup_start env conf w jar ip dir c :
  reaches_setup_start env (history w) jar ip dir c (inr tt) ->
  New env conf w =
    (try* _ := configureInstance env
                 {| conf := conf; cont := None; confDir := dir;
                    httpclient := JarClient jar |} in
     try* _ := Container_Close_ env c in
     try* c := docker_NewContainer_ env (finalConf dir ip) in
     ret (inr {| conf := conf; cont := Some c; confDir := dir;
                 httpclient := JarClient jar |}))
      {| history := history w ++ New_prologue dir ip c; now := now w |}.
Proof.
  intros (H1 & H2 & H3 & H4 & H5).
  unfold New at 1, try at 1 2 3 4 5, bind at 1 2 3 4 5.
  unfold cookiejar_New_, docker_GetDockerHostIP_, ioutil_TempDir_,
    docker_NewContainer_ at 1, Container_Start_, call.
  cbn [history now].
  answer H1. answer H2. answer H3. answer H4. answer H5.
  reflexivity.
Qed.

(** C8: when the start of the setup container fails, New returns that
    error; the calls it has made are the five up to that start, so there
    was no readiness probe and no other HTTP exchange, no sleep, no second
    container made or started, and no removal of the data directory. *)
Theorem New_setup_start_failure (env : Env) (conf : Config) (w : World)
    (jar : Jar) (ip dir : string) (c : Container) (err : error) :
  reaches_setup_start env (history w) jar ip dir c (inl err) ->
  New env conf w
  = Returns (inl err) {| history := history w ++ New_prologue dir ip c; now := now w |}
  /\ existsb is_http (New_prologue dir ip c) = false
  /\ existsb is_Sleep (New_prologue dir ip c) = false
  /\ existsb is_RemoveAll (New_prologue dir ip c) = false
  /\ filter (fun e => is_Container_call e = true) (New_prologue dir ip c)
     = [docker_NewContainer (initConf dir ip); Container_Start c].
Proof.
  intros (H1 & H2 & H3 & H4 & H5).
  split; [|repeat split].
  unfold New, try, bind.
  unfold cookiejar_New_, docker_GetDockerHostIP_, ioutil_TempDir_,
    docker_NewContainer_, Container_Start_, call.
  cbn [history now].
  answer H1. answer H2. answer H3. answer H4. answer H5.
  reflexivity.
Qed.

Lemma New_setup_start_failure_witness :
  let env := Sample.with_Start (fun _ _ => inl (foreign_error "no such image"))
                               Sample.healthy in
  New env Sample.demo Sample.boot
  = Returns (inl (foreign_error "no such image"))
            {| history := New_prologue "/tmp/ctfd123" "172.17.0.1" 3; now := 0 |}.
Proof.
  intros env.
  refine (proj1 (New_setup_start_failure env Sample.demo Sample.boot
                   7%nat "172.17.0.1" "/tmp/ctfd123" 3%nat
                   (foreign_error "no such image") _)).
  repeat split.
Defined.

(** C7, as stated, fails: New returns with the serving container made but
    never started. On the sample run the containers are 3 (setup) and 15
    (serving), and the only start among New's calls is that of 3. *)
Lemma New_returns_unstarted_container :
  exists w',
    New Sample.healthy Sample.demo Sample.boot = Returns (inr Sample.instance) w'
    /\ cont Sample.instance = Some 15%nat
    /\ existsb (is_Start_of 15) (history w') = false
    /\ filter (fun e => is_Container_call e = true) (history w')
       = [docker_NewContainer (initConf "/tmp/ctfd123" "172.17.0.1");
          Container_Start 3; Container_Close 3;
          docker_NewContainer (finalConf "/tmp/ctfd123" "172.17.0.1")].
Proof.
  eexists. split; [vm_compute; reflexivity|].
  split; [reflexivity|]. split; vm_compute; reflexivity.
Qed.

(** C7, amended: after configuration and flag seeding succeed, New closes
    the setup container and then makes the serving container from the
    shared base configuration (the setup configuration without its port
    binding), with no further probe, configuration or seeding; it does not
    start the serving container. The instance New returns holds that
    container, and the instance's Start is what starts it. *)
Theorem New_hands_over_unstarted_container (env : Env) (conf : Config) (w w1 : World)
    (jar : Jar) (ip dir : string) (c c' : Container) :
  reaches_setup_start env (history w) jar ip dir c (inr tt) ->
  configureInstance env
    {| conf := conf; cont := None; confDir := dir; httpclient := JarClient jar |}
    {| history := history w ++ New_prologue dir ip c; now := now w |}
  = Returns nil_error w1 ->
  env_Close env (history w1) c = inr tt ->
  env_NewContainer env (history w1 ++ [Container_Close c]) (finalConf dir ip) = inr c' ->
  let ctf := {| conf := conf; cont := Some c'; confDir := dir;
                httpclient := JarClient jar |} in
  New env conf w
  = Returns (inr ctf)
            {| history := history w1 ++ [Container_Close c;
                                         docker_NewContainer (finalConf dir ip)];
               now := now w1 |}
  /\ finalConf dir ip = baseConf dir ip
  /\ (Image (initConf dir ip), Mounts (initConf dir ip),
      EnvVars (initConf dir ip), UseBridge (initConf dir ip))
     = (Image (baseConf dir ip), Mounts (baseConf dir ip),
        EnvVars (baseConf dir ip), UseBridge (baseConf dir ip))
  /\ PortBindings (baseConf dir ip) = ∅
  /\ forall w2,
       Start env ctf w2
       = Returns (env_Start env (history w2) c')
                 {| history := history w2 ++ [Container_Start c']; now := now w2 |}.
Proof.
  intros Hsetup Hconf Hclose Hnew ctf.
  split; [|repeat split].
  rewrite (New_after_setup_start _ _ _ _ _ _ _ Hsetup).
  rewrite (try_inr _ _ _ _ _ Hconf).
  unfold try, bind, Container_Close_, docker_NewContainer_, call.
  answer Hclose. answer Hnew. reflexivity.
Qed.

Lemma New_hands_over_unstarted_container_witness :
  exists w',
    New Sample.healthy Sample.demo Sample.boot = Returns (inr Sample.instance) w'.
Proof.
  eexists.
  refine (proj1 (New_hands_over_unstarted_container Sample.healthy Sample.demo
                   Sample.boot _ 7%nat "172.17.0.1" "/tmp/ctfd123" 3%nat 15%nat
                   _ _ _ _)).
  - repeat split.
  - vm_compute. reflexivity.
  - reflexivity.
  - reflexivity.
Defined.

(** ** Form submissions *)

(** C2, as stated, fails: with a platform that rejects every POST with
    403, the setup submission and both challenge submissions go through
    and configureInstance reports success. *)
Lemma submissions_accept_rejections :
  (forall h cl req, Method req = "POST" ->
     env_RoundTrip Sample.rejecting h cl req = Sample.response 403 "Forbidden")
  /\ exists w',
      configureInstance Sample.rejecting Sample.instance Sample.boot
      = Returns nil_error w'
      /\ length (filter (fun e => is_POST e = true) (history w')) = 3%nat.
Proof.
  split.
  - intros h cl req H. cbn. now rewrite H.
  - eexists. split; [vm_compute; reflexivity|]. vm_compute. reflexivity.
Qed.

(** C2, amended: a form submission fails only when the HTTP exchange
    itself fails, and then with the transport's error. When the platform
    answers, the status of the answer is not looked at: the challenge
    submission reports success, and after the setup submission
    configureInstance goes on to seed the flags. A non-2xx answer, such as
    the rejection of a stale nonce, is therefore accepted. *)
Theorem submissions_fail_on_transport_only (env : Env) (ctf : ctfd) :
  (forall name flag points w w1 nonce,
      getNonce env ctf createFlag_endpoint w = Returns (inr nonce) w1 ->
      let req := createFlag_request name flag points nonce in
      let w2 d := {| history := history w1 ++ [http_Do (httpclient ctf) req];
                     now := now w1 + d |} in
      createFlag env ctf name flag points w =
        match env_RoundTrip env (history w1) (httpclient ctf) req with
        | (d, inl msg) => Returns (inl (url_Error msg)) (w2 d)
        | (d, inr _) => Returns nil_error (w2 d)
        end)
  /\ (forall w w1 w2 nonce,
        waitForServer env configureInstance_endpoint w = Returns nil_error w1 ->
        getNonce env ctf configureInstance_endpoint w1 = Returns (inr nonce) w2 ->
        let req := configureInstance_request (conf ctf) nonce in
        let w3 d := {| history := history w2 ++ [http_Do (httpclient ctf) req];
                       now := now w2 + d |} in
        configureInstance env ctf w =
          match env_RoundTrip env (history w2) (httpclient ctf) req with
          | (d, inl msg) => Returns (inl (url_Error msg)) (w3 d)
          | (d, inr _) => configureInstance_range env ctf (Flags (conf ctf)) (w3 d)
          end).
Proof.
  split.
  - intros name flag points w w1 nonce Hnonce req w2.
    unfold createFlag. rewrite (try_inr _ _ _ _ _ Hnonce).
    unfold try, bind, Client_Do. fold req.
    destruct (env_RoundTrip env (history w1) (httpclient ctf) req) as [d [msg|resp]];
      reflexivity.
  - intros w w1 w2 nonce Hwait Hnonce req w3.
    unfold configureInstance.
    rewrite (try_inr _ _ _ _ _ Hwait), (try_inr _ _ _ _ _ Hnonce).
    unfold try at 1, bind at 1, Client_Do. fold req.
    destruct (env_RoundTrip env (history w2) (httpclient ctf) req) as [d [msg|resp]];
      reflexivity.
Qed.

Lemma submissions_fail_on_transport_only_witness :
  exists w1 w2,
    getNonce Sample.rejecting Sample.instance createFlag_endpoint Sample.boot
    = Returns (inr "abc") w1
    /\ createFlag Sample.rejecting Sample.instance "A" "flag{a}" 100 Sample.boot
       = Returns nil_error w2.
Proof.
  eexists. eexists.
  assert (H : getNonce Sample.rejecting Sample.instance createFlag_endpoint Sample.boot
              = Returns (inr "abc")
                  {| history := [http_Do (JarClient 7) (GET createFlag_endpoint)];
                     now := 5000000 |}) by (vm_compute; reflexivity).
  split; [exact H|].
  exact (proj1 (submissions_fail_on_transport_only Sample.rejecting Sample.instance)
           "A" "flag{a}" 100%N _ _ _ H).
Defined.

(** ** The readiness poll *)

Section Poll.

Variable env : Env.
Variable path : string.

Lemma fails_first_cons h d msg rest :
  fails_first env path h ((d, msg) :: rest) ->
  env_RoundTrip env h DefaultClient (GET path) = (d, inl msg)
  /\ fails_first env path (h ++ backoff path) rest.
Proof.
  intros H. split.
  - specialize (H 0%nat d msg eq_refl). cbn [rounds] in H.
    now rewrite app_nil_r in H.
  - intros i d' msg' Hi. specialize (H (S i) d' msg' Hi).
    cbn [rounds] in H. now rewrite <- app_assoc.
Qed.

Lemma spent_ge_length fails :
  (N.of_nat (length fails) * time_Second <= spent fails)%N.
Proof.
  induction fails as [|[d msg] rest IH]; cbn [length spent]; lia.
Qed.

Lemma rounds_sleeps k :
  length (filter (fun e => is_Sleep e = true) (rounds path k)) = k.
Proof.
  induction k as [|k IH]; [reflexivity|].
  cbn [rounds backoff app]. unfold probe at 1.
  rewrite filter_cons_False by (cbn; discriminate).
  rewrite filter_cons_True by reflexivity.
  cbn [length]. now rewrite IH.
Qed.

(** The three ways one turn of the loop goes. *)

Lemma loop_deadline fuel deadline w :
  (deadline <= now w)%N ->
  waitForServer_loop env (S fuel) path deadline w
  = Returns (inl ServerUnavailableErr) w.
Proof.
  intros H. cbn [waitForServer_loop]. unfold bind, ctx_Done.
  apply N.leb_le in H. now rewrite H.
Qed.

Lemma loop_response fuel deadline w d resp :
  (now w < deadline)%N ->
  env_RoundTrip env (history w) DefaultClient (GET path) = (d, inr resp) ->
  waitForServer_loop env (S fuel) path deadline w
  = Returns (verdict resp) {| history := history w ++ [probe path]; now := now w + d |}.
Proof.
  intros Hlt Hrt. cbn [waitForServer_loop]. unfold bind at 1, ctx_Done.
  apply N.leb_gt in Hlt. rewrite Hlt.
  unfold bind, poll, try, bind, http_Get, Client_Get, Client_Do. rewrite Hrt.
  unfold verdict, ret.
  destruct (StatusCode resp =? 200)%Z; reflexivity.
Qed.

Lemma loop_retry fuel deadline w d msg :
  (now w < deadline)%N ->
  env_RoundTrip env (history w) DefaultClient (GET path) = (d, inl msg) ->
  waitForServer_loop env (S fuel) path deadline w
  = waitForServer_loop env fuel path deadline
      {| history := history w ++ backoff path; now := now w + d + time_Second |}.
Proof.
  intros Hlt Hrt. cbn [waitForServer_loop]. unfold bind at 1, ctx_Done.
  apply N.leb_gt in Hlt. rewrite Hlt.
  unfold bind, poll, try, bind, http_Get, Client_Get, Client_Do. rewrite Hrt.
  cbn [ret is_net_Error time_Sleep_ call elapse history now bind].
  unfold time_Sleep_, bind, call, elapse. cbn [history now].
  now rewrite <- app_assoc.
Qed.

(** After [fails] the next probe is answered: the loop sends the verdict
    on that answer. *)
Lemma loop_answered fails :
  forall fuel deadline w d resp,
    fails_first env path (history w) fails ->
    env_RoundTrip env (history w ++ rounds path (length fails)) DefaultClient (GET path)
    = (d, inr resp) ->
    (now w + spent fails < deadline)%N ->
    (length fails < fuel)%nat ->
    waitForServer_loop env fuel path deadline w
    = Returns (verdict resp)
              {| history := history w ++ rounds path (length fails) ++ [probe path];
                 now := now w + spent fails + d |}.
Proof.
  induction fails as [|[d0 msg0] rest IH]; intros fuel deadline w d resp Hf Hrt Hlt Hfuel.
  - destruct fuel as [|fuel]; [cbn in Hfuel; lia|].
    cbn [length rounds spent] in *. rewrite app_nil_r in Hrt.
    rewrite N.add_0_r in *.
    now apply loop_response.
  - destruct fuel as [|fuel]; [cbn in Hfuel; lia|].
    apply fails_first_cons in Hf as [Hrt0 Hrest].
    cbn [length rounds spent] in *.
    assert (Hgt : (now w < deadline)%N) by lia.
    rewrite (loop_retry _ _ _ _ _ Hgt Hrt0).
    rewrite (IH fuel deadline _ d resp); cbn [history now].
    + rewrite <- !app_assoc. f_equal. f_equal. lia.
    + exact Hrest.
    + now rewrite <- app_assoc.
    + lia.
    + lia.
Qed.

(** With a turn of fuel for every second left and one more, the loop
    returns. *)
Lemma loop_returns n :
  forall deadline w,
    (deadline <= now w + N.of_nat n * time_Second)%N ->
    exists r w', waitForServer_loop env (S n) path deadline w = Returns r w'.
Proof.
  induction n as [|n IH]; intros deadline w Hfuel.
  - eexists _, _. apply loop_deadline. lia.
  - destruct (N.le_gt_cases deadline (now w)) as [Hle|Hgt].
    + eexists _, _. now apply loop_deadline.
    + destruct (env_RoundTrip env (history w) DefaultClient (GET path))
        as [d [msg|resp]] eqn:Hrt.
      * rewrite (loop_retry _ _ _ _ _ Hgt Hrt). apply IH. cbn [now]. lia.
      * eexists _, _. now apply (loop_response _ _ _ _ _ Hgt Hrt).
Qed.

(** The loop sends ServerUnavailableErr only having seen the deadline
    passed after a run of transport failures. *)
Lemma loop_unavailable_inv fuel :
  forall deadline w w',
    waitForServer_loop env fuel path deadline w
    = Returns (inl ServerUnavailableErr) w' ->
    exists fails,
      fails_first env path (history w) fails
      /\ (deadline <= now w + spent fails)%N
      /\ w' = {| history := history w ++ rounds path (length fails);
                 now := now w + spent fails |}.
Proof.
  induction fuel as [|fuel IH]; intros deadline w w' Hrun; [discriminate Hrun|].
  destruct (N.le_gt_cases deadline (now w)) as [Hle|Hgt].
  - rewrite (loop_deadline _ _ _ Hle) in Hrun. injection Hrun as <-.
    exists []. cbn [length rounds spent]. rewrite app_nil_r, N.add_0_r.
    split; [intros i d msg Hi; discriminate Hi|].
    split; [exact Hle|]. now destruct w.
  - destruct (env_RoundTrip env (history w) DefaultClient (GET path))
      as [d [msg|resp]] eqn:Hrt.
    + rewrite (loop_retry _ _ _ _ _ Hgt Hrt) in Hrun.
      apply IH in Hrun as (fails & Hf & Hdl & ->). cbn [history now] in *.
      exists ((d, msg) :: fails). cbn [length rounds spent].
      split; [|split].
      * intros [|i] d' msg' Hi; cbn in Hi.
        -- injection Hi as <- <-. cbn [rounds]. now rewrite app_nil_r.
        -- cbn [rounds]. rewrite app_assoc. now apply Hf.
      * lia.
      * rewrite <- app_assoc. f_equal. lia.
    + rewrite (loop_response _ _ _ _ _ Hgt Hrt) in Hrun.
      unfold verdict in Hrun.
      destruct (StatusCode resp =? 200)%Z; discriminate Hrun.
Qed.

(** A run of transport failures that outlasts the deadline makes the loop
    send ServerUnavailableErr. *)
Lemma loop_unavailable fails :
  forall n deadline w,
    fails_first env path (history w) fails ->
    (deadline <= now w + spent fails)%N ->
    (deadline <= now w + N.of_nat n * time_Second)%N ->
    exists w',
      waitForServer_loop env (S n) path deadline w
      = Returns (inl ServerUnavailableErr) w'.
Proof.
  induction fails as [|[d msg] rest IH]; intros n deadline w Hf Hdl Hfuel.
  - cbn [spent] in Hdl. eexists. apply loop_deadline. lia.
  - destruct (N.le_gt_cases deadline (now w)) as [Hle|Hgt].
    + eexists. now apply loop_deadline.
    + apply fails_first_cons in Hf as [Hrt Hrest].
      destruct n as [|n]; [lia|].
      rewrite (loop_retry _ _ _ _ _ Hgt Hrt).
      apply IH; cbn [history now spent] in *; [exact Hrest|lia|lia].
Qed.

End Poll.

(** After [fails], a probe that is answered ends the poll with the verdict
    on the answer, however long the answer took. *)
Lemma waitForServer_answered env path w fails d resp :
  fails_first env path (history w) fails ->
  env_RoundTrip env (history w ++ rounds path (length fails)) DefaultClient (GET path)
  = (d, inr resp) ->
  (spent fails < waitForServer_timeout)%N ->
  waitForServer env path w
  = Returns (verdict resp)
            {| history := history w ++ rounds path (length fails) ++ [probe path];
               now := now w + spent fails + d |}.
Proof.
  intros Hf Hrt Hlt. unfold waitForServer, bind, time_Now.
  apply loop_answered; [exact Hf|exact Hrt|lia|].
  pose proof (spent_ge_length fails) as Hlen.
  unfold waitForServer_fuel.
  assert (Hq : (N.of_nat (length fails) <= waitForServer_timeout / time_Second)%N).
  { apply N.div_le_lower_bound; [discriminate|]. lia. }
  lia.
Qed.

Lemma waitForServer_returns env path w :
  exists r w', waitForServer env path w = Returns r w'.
Proof.
  unfold waitForServer, bind, time_Now, waitForServer_fuel.
  apply loop_returns. rewrite N2Nat.id.
  change (waitForServer_timeout / time_Second * time_Second)%N
    with waitForServer_timeout.
  lia.
Qed.

(** C3, as stated, fails twice over. A first answer of 204, which is a
    2xx response, ends the poll with an error; and one failed attempt that
    times out after 60 seconds leaves no time for the second attempt,
    though its one second of backoff falls well within the minute. *)
Lemma waitForServer_fails_on_204_and_on_slow_failures :
  (waitForServer Sample.no_content configureInstance_endpoint Sample.boot
   = Returns (inl (Errorf_status 204))
             {| history := [probe configureInstance_endpoint]; now := 5000000 |}
   /\ (200 <= 204 < 300)%Z)
  /\ (env_RoundTrip Sample.stalled (backoff configureInstance_endpoint)
        DefaultClient (GET configureInstance_endpoint)
      = Sample.response 200 (Sample.page "abc")
      /\ waitForServer Sample.stalled configureInstance_endpoint Sample.boot
         = Returns (inl ServerUnavailableErr)
                   {| history := backoff configureInstance_endpoint;
                      now := (61 * time_Second)%N |}).
Proof.
  repeat split; try lia; vm_compute; reflexivity.
Qed.

(** C3, amended: when the first k probes fail at the transport level and
    the next one is answered with status 200, and the time taken by those
    k failed probes and their k one-second backoffs is less than the
    timeout, the poll succeeds after exactly k backoffs; and when the
    first probe is answered with any status other than 200 (another 2xx
    included), the poll fails at once with that status, after that one
    probe and no backoff. *)
Theorem waitForServer_succeeds_after_backoffs (env : Env) (path : string) (w : World) :
  (forall fails d resp,
      fails_first env path (history w) fails ->
      env_RoundTrip env (history w ++ rounds path (length fails))
        DefaultClient (GET path) = (d, inr resp) ->
      StatusCode resp = 200%Z ->
      (spent fails < waitForServer_timeout)%N ->
      waitForServer env path w
      = Returns nil_error
                {| history := history w ++ rounds path (length fails) ++ [probe path];
                   now := now w + spent fails + d |}
      /\ length (filter (fun e => is_Sleep e = true)
                   (rounds path (length fails) ++ [probe path]))
         = length fails)
  /\ (forall d resp,
        env_RoundTrip env (history w) DefaultClient (GET path) = (d, inr resp) ->
        StatusCode resp <> 200%Z ->
        waitForServer env path w
        = Returns (inl (Errorf_status (StatusCode resp)))
                  {| history := history w ++ [probe path]; now := now w + d |}).
Proof.
  split.
  - intros fails d resp Hf Hrt Hok Hlt. split.
    + rewrite (waitForServer_answered _ _ _ _ _ _ Hf Hrt Hlt).
      unfold verdict. now rewrite Hok.
    + rewrite filter_app, length_app, rounds_sleeps.
      unfold probe. rewrite filter_cons_False by (cbn; discriminate).
      cbn. lia.
  - intros d resp Hrt Hko.
    assert (Hf : fails_first env path (history w) []) by (intros i ? ? Hi; discriminate Hi).
    cbn [length rounds] in *.
    rewrite (waitForServer_answered env path w [] d resp Hf).
    + unfold verdict. apply Z.eqb_neq in Hko. rewrite Hko.
      cbn [length rounds spent app]. now rewrite N.add_0_r.
    + cbn [length rounds]. now rewrite app_nil_r.
    + reflexivity.
Qed.

Lemma waitForServer_succeeds_after_backoffs_witness :
  waitForServer Sample.late configureInstance_endpoint Sample.boot
  = Returns nil_error
            {| history := rounds configureInstance_endpoint 2
                            ++ [probe configureInstance_endpoint];
               now := 2007000000 |}.
Proof.
  refine (proj1 (proj1 (waitForServer_succeeds_after_backoffs
                          Sample.late configureInstance_endpoint Sample.boot)
                   [(1000000%N, "connection refused"); (1000000%N, "connection refused")]
                   5000000%N {| StatusCode := 200; RespBody := inr (Sample.page "abc") |}
                   _ _ _ _)).
  - intros [|[|i]] d msg Hi; try discriminate Hi; injection Hi as <- <-; reflexivity.
  - reflexivity.
  - reflexivity.
  - reflexivity.
Defined.

(** C4, as stated, fails: a first exchange that lasts 61 seconds and is
    then answered with 200 makes the poll succeed, though its deadline
    passed a second before that answer, the first terminal outcome, was
    seen. *)
Lemma waitForServer_succeeds_past_deadline :
  waitForServer Sample.slow configureInstance_endpoint Sample.boot
  = Returns nil_error
            {| history := [probe configureInstance_endpoint];
               now := (61 * time_Second)%N |}
  /\ (now Sample.boot + waitForServer_timeout < 61 * time_Second)%N.
Proof.
  split; [vm_compute; reflexivity|reflexivity].
Qed.

(** C4, amended: the poll always returns, and it returns
    ServerUnavailableErr if and only if the probes fail at the transport
    level, one after the other, for so long that these failed probes and
    their one-second backoffs last the timeout or more: the deadline is
    looked at before each probe only. A probe that is under way when the
    deadline passes is not cut short, and when it is answered the poll
    returns the verdict on that answer, not ServerUnavailableErr. *)
Theorem waitForServer_unavailable_iff (env : Env) (path : string) (w : World) :
  (exists r w', waitForServer env path w = Returns r w')
  /\ ((exists w', waitForServer env path w = Returns (inl ServerUnavailableErr) w')
      <-> (exists fails,
              fails_first env path (history w) fails
              /\ (waitForServer_timeout <= spent fails)%N))
  /\ (forall fails d resp,
        fails_first env path (history w) fails ->
        (spent fails < waitForServer_timeout)%N ->
        env_RoundTrip env (history w ++ rounds path (length fails))
          DefaultClient (GET path) = (d, inr resp) ->
        exists w',
          waitForServer env path w = Returns (verdict resp) w'
          /\ verdict resp <> inl ServerUnavailableErr
          /\ now w' = (now w + spent fails + d)%N).
Proof.
  split; [apply waitForServer_returns|]. split; [split|].
  - intros [w' Hrun]. unfold waitForServer, bind, time_Now in Hrun.
    apply loop_unavailable_inv in Hrun as (fails & Hf & Hdl & _).
    exists fails. split; [exact Hf|lia].
  - intros (fails & Hf & Hdl).
    unfold waitForServer, bind, time_Now, waitForServer_fuel.
    apply (loop_unavailable env path fails); [exact Hf|lia|].
    rewrite N2Nat.id.
    change (waitForServer_timeout / time_Second * time_Second)%N
      with waitForServer_timeout.
    lia.
  - intros fails d resp Hf Hlt Hrt. eexists. split; [|split].
    + exact (waitForServer_answered _ _ _ _ _ _ Hf Hrt Hlt).
    + unfold verdict. destruct (StatusCode resp =? 200)%Z; discriminate.
    + reflexivity.
Qed.

Lemma waitForServer_unavailable_iff_witness :
  exists w',
    waitForServer Sample.down configureInstance_endpoint Sample.boot
    = Returns (inl ServerUnavailableErr) w'.
Proof.
  apply (proj1 (proj2 (waitForServer_unavailable_iff
                         Sample.down configureInstance_endpoint Sample.boot))).
  exists (replicate 40 (500000000%N, "connection refused")).
  split.
  - intros i d msg Hi. apply lookup_replicate in Hi as [Hi _].
    injection Hi as -> ->. reflexivity.
  - vm_compute. discriminate.
Defined.

(** ** Deadlines *)

(** C9: the deadlines are fixed durations. The readiness poll, and with
    it the creation of an instance, runs against one minute, as does the
    client's create command; the client's stop and restart commands run
    against 30 and 60 seconds. The poll takes no other signal: it always
    returns, it gives up (ServerUnavailableErr) only with its deadline
    reached, and an HTTP exchange under way is never interrupted, since
    whatever its duration the poll returns only after it, with the verdict
    on its answer. *)
Theorem deadlines_fixed_and_no_midflight_cancel :
  waitForServer_timeout = (60 * time_Second)%N
  /\ CmdEventCreate_timeout = (60 * time_Second)%N
  /\ CmdEventStop_timeout = (30 * time_Second)%N
  /\ CmdEventTeamRestart_timeout = (60 * time_Second)%N
  /\ (10 * time_Second <= CmdEventStop_timeout < 100 * time_Second)%N
  /\ (10 * time_Second <= CmdEventTeamRestart_timeout < 100 * time_Second)%N
  /\ (forall env path w,
        exists r w',
          waitForServer env path w = Returns r w'
          /\ (r = inl ServerUnavailableErr ->
              (now w + waitForServer_timeout <= now w')%N))
  /\ (forall env path w d resp,
        env_RoundTrip env (history w) DefaultClient (GET path) = (d, inr resp) ->
        waitForServer env path w
        = Returns (verdict resp)
                  {| history := history w ++ [probe path]; now := now w + d |}).
Proof.
  repeat split; try (vm_compute; congruence).
  - intros env path w.
    destruct (waitForServer_returns env path w) as (r & w' & Hrun).
    exists r, w'. split; [exact Hrun|]. intros ->.
    unfold waitForServer, bind, time_Now in Hrun.
    apply loop_unavailable_inv in Hrun as (fails & _ & Hdl & ->).
    cbn [now]. exact Hdl.
  - intros env path w d resp Hrt.
    assert (Hf : fails_first env path (history w) []) by (intros i ? ? Hi; discriminate Hi).
    rewrite (waitForServer_answered env path w [] d resp Hf).
    + cbn [length rounds spent app]. now rewrite N.add_0_r.
    + cbn [length rounds]. now rewrite app_nil_r.
    + reflexivity.
Qed.

Lemma deadlines_fixed_and_no_midflight_cancel_witness :
  waitForServer Sample.slow configureInstance_endpoint Sample.boot
  = Returns nil_error
            {| history := [probe configureInstance_endpoint];
               now := (61 * time_Second)%N |}.
Proof.
  exact (proj2 (proj2 (proj2 (proj2 (proj2 (proj2 (proj2
           deadlines_fixed_and_no_midflight_cancel))))))
           Sample.slow configureInstance_endpoint Sample.boot
           (61 * time_Second)%N
           {| StatusCode := 200; RespBody := inr (Sample.page "abc") |} eq_refl).
Defined.

(** ** Nonce fetch and flag seeding *)

Lemma getNonce_run env ctf path w :
  getNonce env ctf path w =
    let '(d, a) := env_RoundTrip env (history w) (httpclient ctf) (GET path) in
    let w1 := {| history := history w ++ [http_Do (httpclient ctf) (GET path)];
                 now := now w + d |} in
    match a with
    | inl msg => Returns (inl (url_Error msg)) w1
    | inr resp => Returns (nonce_in resp) w1
    end.
Proof.
  unfold getNonce, try, bind, Client_Get, Client_Do, nonce_in.
  destruct (env_RoundTrip env (history w) (httpclient ctf) (GET path)) as [d [msg|resp]];
    [reflexivity|].
  cbn [ret]. destruct (RespBody resp) as [err|content]; [reflexivity|].
  destruct (FindAllSubmatch _ _); reflexivity.
Qed.

Section Seeding.

Variable env : Env.
Variable ctf : ctfd.

Lemma createFlag_run f w :
  createFlag env ctf (flag_Name f) (flag_Default f) (flag_Points f) w =
    let '(d, a) := env_RoundTrip env (history w) (httpclient ctf) (GET createFlag_endpoint) in
    let w1 := {| history := history w ++ [fetch ctf]; now := now w + d |} in
    match a with
    | inl msg => Returns (inl (url_Error msg)) w1
    | inr resp =>
        match nonce_in resp with
        | inl err => Returns (inl err) w1
        | inr nonce =>
            let '(d', a') := env_RoundTrip env (history w1) (httpclient ctf)
                               (submission f nonce) in
            let w2 := {| history := history w ++ [fetch ctf; submit ctf f nonce];
                         now := now w + d + d' |} in
            match a' with
            | inl msg => Returns (inl (url_Error msg)) w2
            | inr _ => Returns nil_error w2
            end
        end
    end.
Proof.
  unfold createFlag, try at 1, bind at 1. rewrite getNonce_run. fold (fetch ctf).
  destruct (env_RoundTrip env (history w) _ _) as [d [msg|resp]]; [reflexivity|].
  cbn zeta. destruct (nonce_in resp) as [err|nonce]; [reflexivity|].
  unfold try, bind, Client_Do, submission. cbn [history now].
  destruct (env_RoundTrip env _ _ _) as [d' [msg|resp']];
    cbn [ret]; unfold submit, submission; now rewrite <- app_assoc.
Qed.

Lemma submission_nonce f nonce :
  exists fields,
    ReqBody (submission f nonce) = Multipart fields
    /\ fields !! "nonce" = Some nonce.
Proof.
  eexists. split; [reflexivity|].
  unfold createFlag_values. cbn [list_to_map foldr uncurry].
  now repeat (rewrite lookup_insert_ne by discriminate); rewrite lookup_insert_eq.
Qed.

End Seeding.

Lemma submit_inj ctf f f' nonce nonce' :
  submit ctf f nonce = submit ctf f' nonce' -> nonce = nonce'.
Proof.
  intros H.
  destruct (submission_nonce f nonce) as (m & Hm & Hn).
  destruct (submission_nonce f' nonce') as (m' & Hm' & Hn').
  apply (f_equal (fun e => match e with
                           | http_Do _ req => ReqBody req
                           | _ => NoBody
                           end)) in H.
  cbn beta iota in H. unfold submit in H. rewrite Hm, Hm' in H.
  injection H as <-. congruence.
Qed.

(** C6: for every list of flag definitions the loop over the flags
    returns, and the calls it makes are one round per definition in the
    order of the list (a fetch of the challenge-creation page, the
    submission of that definition, a log line), up to the end of the list
    when it succeeds. Every submission comes right after a fetch of the
    page and carries the nonce found in the answer to that very fetch.
    A fetch or a submission that fails is the last call made (no round is
    begun for the later definitions, and no call is made after a failed
    one) and its error is what is returned; and when an error is
    returned, it is the error of the last call. *)
Theorem flags_seeded_in_order (env : Env) (ctf : ctfd) (flags : list FlagConfig) :
  forall w, exists r w' tr,
    configureInstance_range env ctf flags w = Returns r w'
    /\ history w' = history w ++ tr
    /\ seeding_trace ctf flags tr (succeeded r)
    /\ (forall i f nonce,
          tr !! i = Some (submit ctf f nonce) ->
          exists j d resp,
            i = S j
            /\ tr !! j = Some (fetch ctf)
            /\ env_RoundTrip env (history w ++ take j tr) (httpclient ctf)
                 (GET createFlag_endpoint) = (d, inr resp)
            /\ nonce_in resp = inr nonce)
    /\ (forall i e err,
          tr !! i = Some e ->
          exchange_error env (history w ++ take i tr) e = Some err ->
          S i = length tr /\ r = inl err)
    /\ (forall err,
          r = inl err ->
          exists pre e,
            tr = pre ++ [e]
            /\ exchange_error env (history w ++ pre) e = Some err).
Proof.
  induction flags as [|f rest IH]; intros w.
  - exists nil_error, w, []. rewrite app_nil_r.
    repeat split; try constructor; try discriminate.
  - cbn [configureInstance_range]. unfold try at 1, bind at 1.
    rewrite createFlag_run.
    destruct (env_RoundTrip env (history w) (httpclient ctf) (GET createFlag_endpoint))
      as [d [msg|resp]] eqn:Hget; cbn zeta.
    { (* the fetch fails *)
      eexists _, _, [fetch ctf]. split; [reflexivity|].
      split; [reflexivity|]. split; [constructor|]. split; [|split].
      - intros [|[|i]] f' nonce' Hi; discriminate Hi.
      - intros [|i] e err Hi Herr; [|discriminate Hi].
        apply (inj Some) in Hi. subst e.
        cbn [take] in Herr. rewrite app_nil_r in Herr.
        unfold exchange_error, fetch in Herr. rewrite Hget in Herr.
        cbn [snd] in Herr. injection Herr as <-. split; reflexivity.
      - intros err [= <-]. exists [], (fetch ctf). split; [reflexivity|].
        rewrite app_nil_r. unfold exchange_error, fetch. now rewrite Hget. }
    assert (Hfetched : forall nonce_or_error,
               nonce_in resp = nonce_or_error ->
               exchange_error env (history w ++ []) (fetch ctf)
               = match nonce_or_error with inl err => Some err | inr _ => None end).
    { intros x <-. rewrite app_nil_r. unfold exchange_error, fetch. rewrite Hget.
      reflexivity. }
    destruct (nonce_in resp) as [err|nonce] eqn:Hnonce.
    { (* the page has no nonce, or cannot be read *)
      eexists _, _, [fetch ctf]. split; [reflexivity|].
      split; [reflexivity|]. split; [constructor|]. split; [|split].
      - intros [|[|i]] f' nonce' Hi; discriminate Hi.
      - intros [|i] e err' Hi Herr; [|discriminate Hi].
        apply (inj Some) in Hi. subst e.
        cbn [take] in Herr. rewrite (Hfetched _ eq_refl) in Herr.
        injection Herr as <-. split; reflexivity.
      - intros err' [= <-]. exists [], (fetch ctf). split; [reflexivity|].
        exact (Hfetched _ eq_refl). }
    cbn [history].
    destruct (env_RoundTrip env (history w ++ [fetch ctf]) (httpclient ctf)
                (submission f nonce)) as [d' [msg|resp']] eqn:Hpost.
    { (* the submission fails *)
      eexists _, _, [fetch ctf; submit ctf f nonce]. split; [reflexivity|].
      split; [reflexivity|]. split; [constructor|]. split; [|split].
      - intros [|[|[|i]]] f' nonce' Hi; try discriminate Hi.
        change (Some (submit ctf f nonce) = Some (submit ctf f' nonce')) in Hi.
        apply (inj Some), submit_inj in Hi as <-.
        exists 0%nat, d, resp. cbn [take]. rewrite app_nil_r. auto.
      - intros [|[|i]] e err Hi Herr; [| |discriminate Hi];
          apply (inj Some) in Hi; subst e; cbn [take] in Herr.
        + rewrite (Hfetched _ eq_refl) in Herr. discriminate Herr.
        + unfold exchange_error, submit in Herr. rewrite Hpost in Herr.
          cbn [snd] in Herr. injection Herr as <-. split; reflexivity.
      - intros err [= <-]. exists [fetch ctf], (submit ctf f nonce).
        split; [reflexivity|].
        unfold exchange_error, submit. now rewrite Hpost. }
    (* the round is complete *)
    cbn [ret]. unfold bind at 1, log_Debug_, call, nil_error.
    cbn beta iota. cbn [history now].
    rewrite <- app_assoc. cbn [app]. fold (logged f).
    destruct (IH {| history := history w ++ [fetch ctf; submit ctf f nonce; logged f];
                    now := now w + d + d' |})
      as (r & w' & tr & Hrun & Hhist & Hshape & Hfresh & Hlast & Herr).
    cbn [history] in *.
    exists r, w', (fetch ctf :: submit ctf f nonce :: logged f :: tr).
    split; [exact Hrun|].
    split; [now rewrite Hhist, <- app_assoc|].
    split; [now constructor|]. split; [|split].
    + intros [|[|[|i]]] f' nonce' Hi; try discriminate Hi.
      * change (Some (submit ctf f nonce) = Some (submit ctf f' nonce')) in Hi.
        apply (inj Some), submit_inj in Hi as <-.
        exists 0%nat, d, resp. cbn [take]. rewrite app_nil_r. auto.
      * change (tr !! i = Some (submit ctf f' nonce')) in Hi.
        apply Hfresh in Hi as (j & dj & respj & -> & Hj & Hrt & Hn).
        exists (S (S (S j))), dj, respj.
        split; [reflexivity|]. split; [exact Hj|].
        split; [|exact Hn]. cbn [take].
        rewrite <- app_assoc in Hrt. exact Hrt.
    + intros [|[|[|i]]] e err Hi Herr0.
      * apply (inj Some) in Hi. subst e. cbn [take] in Herr0.
        rewrite (Hfetched _ eq_refl) in Herr0. discriminate Herr0.
      * apply (inj Some) in Hi. subst e. cbn [take] in Herr0.
        unfold exchange_error, submit in Herr0. rewrite Hpost in Herr0.
        discriminate Herr0.
      * apply (inj Some) in Hi. subst e. discriminate Herr0.
      * change (tr !! i = Some e) in Hi. cbn [take] in Herr0.
        change (history w ++ fetch ctf :: submit ctf f nonce :: logged f :: take i tr)
          with (history w ++ [fetch ctf; submit ctf f nonce; logged f] ++ take i tr)
          in Herr0.
        rewrite app_assoc in Herr0.
        destruct (Hlast _ _ _ Hi Herr0) as [Hlen Hres].
        split; [cbn [length]; lia|exact Hres].
    + intros err Hr. destruct (Herr err Hr) as (pre & e & -> & He).
      exists (fetch ctf :: submit ctf f nonce :: logged f :: pre), e.
      split; [reflexivity|]. rewrite <- app_assoc in He. exact He.
Qed.


Lemma flags_seeded_in_order_witness :
  exists r w' tr,
    configureInstance_range Sample.healthy Sample.instance
      [Sample.flagA; Sample.flagB] Sample.boot = Returns r w'
    /\ history w' = history Sample.boot ++ tr
    /\ seeding_trace Sample.instance [Sample.flagA; Sample.flagB] tr (succeeded r).
Proof.
  destruct (flags_seeded_in_order Sample.healthy Sample.instance
              [Sample.flagA; Sample.flagB] Sample.boot)
    as (r & w' & tr & Hrun & Hhist & Hshape & _).
  exists r, w', tr. auto.
Defined.

(** The run over the two sample flags when the first submission fails:
    nothing is fetched or submitted for the second flag. *)
Example seeding_stops_at_failed_submission :
  configureInstance_range posts_reset Sample.instance
    [Sample.flagA; Sample.flagB] Sample.boot
  = Returns (inl (url_Error "connection reset by peer"))
            {| history := [fetch Sample.instance;
                           submit Sample.instance Sample.flagA "abc"];
               now := 10000000 |}.
Proof. vm_compute. reflexivity. Qed.

(** The run over the two sample flags, call by call. *)
Example seeding_of_two_flags :
  exists w',
    configureInstance_range Sample.healthy Sample.instance
      [Sample.flagA; Sample.flagB] Sample.boot = Returns nil_error w'
    /\ history w'
       = [fetch Sample.instance; submit Sample.instance Sample.flagA "abc";
          logged Sample.flagA;
          fetch Sample.instance; submit Sample.instance Sample.flagB "abc";
          logged Sample.flagB].
Proof.
  eexists. split; vm_compute; reflexivity.
Qed.

(** ** The nonce pattern *)

(** The pattern on two pages: the value on a page of the platform, and a
    greedy value that runs to the last quote of the line. *)
Example FindAllSubmatch_on_page :
  map (map string_of_list_ascii)
      (FindAllSubmatch NONCEREGEXP (list_ascii_of_string (Sample.page "abc")))
  = [["csrf_nonce = " +:+ String dquote ("abc" +:+ String dquote EmptyString); "abc"]].
Proof. vm_compute. reflexivity. Qed.

Example FindAllSubmatch_is_greedy :
  let line := "csrf_nonce=" +:+ String dquote ("a" +:+ String dquote
                (" b=" +:+ String dquote ("c" +:+ String dquote ";"))) in
  map (map string_of_list_ascii)
      (FindAllSubmatch NONCEREGEXP (list_ascii_of_string line))
  = [["csrf_nonce=" +:+ String dquote ("a" +:+ String dquote
                (" b=" +:+ String dquote ("c" +:+ String dquote EmptyString)));
      "a" +:+ String dquote (" b=" +:+ String dquote "c")]].
Proof. vm_compute. reflexivity. Qed.

(** *** Greedy repetition *)

Section Greedy.

Variable cls : ascii -> bool.
Variable k : Regexp.cont.

Lemma greedy_None s :
  forall pos g,
    greedy cls k s pos g = None ->
    forall n, (n <= length s)%nat -> all_in cls (take n s) ->
              k (drop n s) (pos + n)%nat g = None.
Proof.
  induction s as [|c s IH]; intros pos g H n Hn Hall; cbn [greedy] in H.
  - destruct n; [|cbn in Hn; lia]. cbn. now rewrite Nat.add_0_r.
  - destruct n as [|n].
    + cbn [drop]. rewrite Nat.add_0_r.
      destruct (cls c); [|exact H].
      destruct (greedy cls k s (S pos) g); [discriminate H|exact H].
    + cbn [take] in Hall. apply Forall_cons in Hall as [Hc Hall].
      rewrite Hc in H.
      destruct (greedy cls k s (S pos) g) eqn:Hg; [discriminate H|].
      cbn [drop]. replace (pos + S n)%nat with (S pos + n)%nat by lia.
      apply IH; [exact Hg|cbn in Hn; lia|exact Hall].
Qed.

Lemma greedy_Some s :
  forall pos g r,
    greedy cls k s pos g = Some r ->
    exists n,
      (n <= length s)%nat
      /\ all_in cls (take n s)
      /\ k (drop n s) (pos + n)%nat g = Some r
      /\ forall m, (n < m <= length s)%nat -> all_in cls (take m s) ->
                   k (drop m s) (pos + m)%nat g = None.
Proof.
  induction s as [|c s IH]; intros pos g r H; cbn [greedy] in H.
  - exists 0%nat. cbn. rewrite Nat.add_0_r.
    repeat split; [lia|constructor|exact H|]. intros m Hm. lia.
  - assert (Hstop : k (c :: s) pos g = Some r ->
                    (forall m, (0 < m <= S (length s))%nat -> all_in cls (take m (c :: s)) ->
                               k (drop m (c :: s)) (pos + m)%nat g = None) ->
                    exists n,
                      (n <= length (c :: s))%nat
                      /\ all_in cls (take n (c :: s))
                      /\ k (drop n (c :: s)) (pos + n)%nat g = Some r
                      /\ forall m, (n < m <= length (c :: s))%nat ->
                                   all_in cls (take m (c :: s)) ->
                                   k (drop m (c :: s)) (pos + m)%nat g = None).
    { intros Hk Hmax. exists 0%nat. cbn [take drop length]. rewrite Nat.add_0_r.
      repeat split; [lia|constructor|exact Hk|exact Hmax]. }
    destruct (cls c) eqn:Hc.
    + destruct (greedy cls k s (S pos) g) as [r'|] eqn:Hg.
      * injection H as ->.
        apply IH in Hg as (n & Hn & Hall & Hk & Hmax).
        exists (S n). cbn [take drop length].
        replace (pos + S n)%nat with (S pos + n)%nat by lia.
        repeat split; [lia|now constructor|exact Hk|].
        intros [|m] Hm Hallm; [lia|]. cbn [take drop] in *.
        apply Forall_cons in Hallm as [_ Hallm].
        replace (pos + S m)%nat with (S pos + m)%nat by lia.
        apply Hmax; [lia|exact Hallm].
      * apply Hstop; [exact H|].
        intros [|m] Hm Hallm; [lia|]. cbn [take drop] in *.
        apply Forall_cons in Hallm as [_ Hallm].
        replace (pos + S m)%nat with (S pos + m)%nat by lia.
        apply (greedy_None _ _ _ Hg); [lia|exact Hallm].
    + apply Hstop; [exact H|].
      intros [|m] Hm Hallm; [lia|]. cbn [take] in Hallm.
      apply Forall_cons in Hallm as [Hc' _]. congruence.
Qed.

End Greedy.
Lemma greedy_complete cls k s pos g n r :
  (n <= length s)%nat -> all_in cls (take n s) ->
  k (drop n s) (pos + n)%nat g = Some r ->
  exists r', greedy cls k s pos g = Some r'.
Proof.
  intros Hn Hall Hk.
  destruct (greedy cls k s pos g) as [r'|] eqn:Hg; [now exists r'|].
  rewrite (greedy_None _ _ _ _ _ Hg n Hn Hall) in Hk. discriminate Hk.
Qed.

(** A literal prefix. *)
Lemma backtrack_lits_sound str :
  forall re s pos g r,
    backtrack (lits str ++ re) s pos g = Some r ->
    exists s',
      s = list_ascii_of_string str ++ s'
      /\ backtrack re s' (pos + String.length str)%nat g = Some r.
Proof.
  induction str as [|c str IH]; intros re s pos g r H.
  - exists s. cbn. now rewrite Nat.add_0_r.
  - cbn [lits list_ascii_of_string map app backtrack] in H.
    destruct s as [|x s]; [discriminate H|].
    destruct (Ascii.eqb_spec x c) as [->|]; [|discriminate H].
    apply IH in H as (s' & -> & H). exists s'.
    split; [reflexivity|]. cbn [String.length].
    now replace (pos + S (String.length str))%nat with (S pos + String.length str)%nat by lia.
Qed.

Lemma backtrack_lits_complete str :
  forall re s' pos g r,
    backtrack re s' (pos + String.length str)%nat g = Some r ->
    backtrack (lits str ++ re) (list_ascii_of_string str ++ s') pos g = Some r.
Proof.
  induction str as [|c str IH]; intros re s' pos g r H.
  - cbn in *. now rewrite Nat.add_0_r in H.
  - cbn [lits list_ascii_of_string map app backtrack].
    rewrite Ascii.eqb_refl. apply IH. cbn [String.length] in H.
    now replace (S pos + String.length str)%nat with (pos + S (String.length str))%nat by lia.
Qed.

(** A run of blanks before a literal. *)
Lemma backtrack_blanks_sound c re s pos g r :
  backtrack (Star is_blank :: Lit c :: re) s pos g = Some r ->
  exists sp s',
    s = sp ++ c :: s'
    /\ all_in is_blank sp
    /\ backtrack re s' (pos + length sp + 1)%nat g = Some r.
Proof.
  intros H. cbn [backtrack] in H.
  apply greedy_Some in H as (n & Hn & Hall & Hk & _).
  destruct (drop n s) as [|x s'] eqn:Hdrop; [discriminate Hk|].
  destruct (Ascii.eqb_spec x c) as [->|]; [|discriminate Hk].
  exists (take n s), s'. rewrite <- Hdrop, take_drop.
  split; [reflexivity|]. split; [exact Hall|].
  rewrite length_take, Nat.min_l by exact Hn.
  now replace (pos + n + 1)%nat with (S (pos + n)) by lia.
Qed.

Lemma backtrack_blanks_complete c re sp s' pos g r :
  all_in is_blank sp ->
  backtrack re s' (pos + length sp + 1)%nat g = Some r ->
  exists r', backtrack (Star is_blank :: Lit c :: re) (sp ++ c :: s') pos g = Some r'.
Proof.
  intros Hall H. cbn [backtrack].
  apply (greedy_complete _ _ _ _ _ (length sp) r).
  - rewrite length_app. lia.
  - now rewrite take_app_length.
  - rewrite drop_app_length, Ascii.eqb_refl.
    now replace (S (pos + length sp)) with (pos + length sp + 1)%nat by lia.
Qed.

(** The quoted value. *)
Lemma backtrack_value_sound s pos g r :
  backtrack value s pos g = Some r ->
  exists v post,
    s = v ++ dquote :: post
    /\ v <> []
    /\ all_in any_char v
    /\ r = ((pos + length v + 1)%nat, (pos, (pos + length v)%nat))
    /\ forall v' post',
         s = v' ++ dquote :: post' -> all_in any_char v' ->
         (length v' <= length v)%nat.
Proof.
  intros H. cbn [value backtrack] in H.
  destruct s as [|x s]; [discriminate H|].
  destruct (any_char x) eqn:Hx; [|discriminate H].
  apply greedy_Some in H as (n & Hn & Hall & Hk & Hmax).
  destruct (drop n s) as [|q post] eqn:Hdrop; [discriminate Hk|].
  destruct (Ascii.eqb_spec q dquote) as [->|]; [|discriminate Hk].
  injection Hk as <-. cbn [fst].
  exists (x :: take n s), post. cbn [length app].
  rewrite length_take, Nat.min_l by exact Hn.
  split; [now rewrite <- Hdrop, take_drop|].
  split; [discriminate|]. split; [now constructor|].
  split; [f_equal; [lia|f_equal; lia]|].
  intros v' post' Hs Hall'.
  destruct v' as [|x' v']; [cbn; lia|].
  cbn [app length] in *. injection Hs as <- Hs.
  apply Forall_cons in Hall' as [_ Hall'].
  destruct (Nat.le_gt_cases (length v') n) as [Hle|Hgt]; [lia|].
  assert (Hlen : (length v' <= length s)%nat).
  { rewrite Hs, length_app. lia. }
  specialize (Hmax (length v') (conj Hgt Hlen)).
  rewrite Hs, take_app_length, drop_app_length in Hmax.
  specialize (Hmax Hall'). rewrite Ascii.eqb_refl in Hmax. discriminate Hmax.
Qed.

Lemma backtrack_value_complete v post pos g :
  v <> [] -> all_in any_char v ->
  exists r, backtrack value (v ++ dquote :: post) pos g = Some r.
Proof.
  intros Hv Hall. destruct v as [|x v]; [congruence|].
  apply Forall_cons in Hall as [Hx Hall].
  cbn [value backtrack app]. rewrite Hx.
  apply (greedy_complete _ _ _ _ _ (length v) (S (S pos + length v), (pos, (S pos + length v)%nat))).
  - rewrite length_app. lia.
  - now rewrite take_app_length.
  - rewrite drop_app_length, Ascii.eqb_refl. reflexivity.
Qed.

Lemma NONCEREGEXP_parts :
  NONCEREGEXP
  = lits "csrf_nonce" ++ Star is_blank :: Lit "="%char :: Star is_blank :: Lit dquote :: value.
Proof. reflexivity. Qed.

Lemma all_blank l : all_in is_blank l <-> Forall (fun c => c = " "%char) l.
Proof.
  unfold all_in, is_blank. apply Forall_iff. intros c.
  now destruct (Ascii.eqb_spec c " "%char).
Qed.

Lemma all_any_char l : all_in any_char l <-> Forall (fun c => c <> newline) l.
Proof.
  unfold all_in, any_char. apply Forall_iff. intros c.
  destruct (Ascii.eqb_spec c newline); cbn; split; congruence.
Qed.

Lemma backtrack_NONCEREGEXP_sound s pos g r :
  backtrack NONCEREGEXP s pos g = Some r ->
  exists sp1 sp2 v post,
    nonce_prefix s sp1 sp2 v post
    /\ snd r = ((pos + 10 + length sp1 + 1 + length sp2 + 1)%nat,
                (pos + 10 + length sp1 + 1 + length sp2 + 1 + length v)%nat)
    /\ forall v' post',
         v ++ dquote :: post = v' ++ dquote :: post' ->
         Forall (fun c => c <> newline) v' ->
         (length v' <= length v)%nat.
Proof.
  rewrite NONCEREGEXP_parts. intros H.
  apply backtrack_lits_sound in H as (s1 & -> & H).
  apply backtrack_blanks_sound in H as (sp1 & s2 & -> & Hsp1 & H).
  apply backtrack_blanks_sound in H as (sp2 & s3 & -> & Hsp2 & H).
  apply backtrack_value_sound in H as (v & post & -> & Hv & Hany & -> & Hmax).
  exists sp1, sp2, v, post. split; [|split].
  - split; [reflexivity|]. rewrite <- !all_blank, <- all_any_char. auto.
  - reflexivity.
  - intros v' post' Heq Hany'. apply (Hmax v' post' Heq). now apply all_any_char.
Qed.

Lemma backtrack_NONCEREGEXP_complete s sp1 sp2 v post pos g :
  nonce_prefix s sp1 sp2 v post ->
  exists r, backtrack NONCEREGEXP s pos g = Some r.
Proof.
  intros (-> & Hsp1 & Hsp2 & Hv & Hany).
  apply all_blank in Hsp1, Hsp2. apply all_any_char in Hany.
  rewrite NONCEREGEXP_parts.
  destruct (backtrack_value_complete v post
              (pos + String.length "csrf_nonce" + length sp1 + 1 + length sp2 + 1)%nat
              g Hv Hany) as (r & Hr).
  destruct (backtrack_blanks_complete dquote value sp2 _ _ g r Hsp2 Hr) as (r2 & Hr2).
  destruct (backtrack_blanks_complete "="%char _ sp1 _ _ g r2 Hsp1 Hr2) as (r1 & Hr1).
  exists r1. now apply backtrack_lits_complete.
Qed.

(** The leftmost-first search. *)
Lemma search_spec re s :
  forall pos,
    match search re s pos with
    | Some m =>
        exists k e g,
          (k <= length s)%nat
          /\ m = {| m_start := pos + k; m_end := e; g_start := fst g; g_end := snd g |}
          /\ backtrack re (drop k s) (pos + k)%nat (0, 0)%nat = Some (e, g)
          /\ forall j, (j < k)%nat ->
                       backtrack re (drop j s) (pos + j)%nat (0, 0)%nat = None
    | None =>
        forall j, (j <= length s)%nat ->
                  backtrack re (drop j s) (pos + j)%nat (0, 0)%nat = None
    end.
Proof.
  induction s as [|c s IH]; intros pos; cbn [search].
  - destruct (backtrack re [] pos (0, 0)%nat) as [[e g]|] eqn:H.
    + exists 0%nat, e, g. cbn. rewrite Nat.add_0_r.
      repeat split; [lia|exact H|]. intros j Hj. lia.
    + intros [|j] Hj; [|cbn in Hj; lia]. cbn. now rewrite Nat.add_0_r.
  - destruct (backtrack re (c :: s) pos (0, 0)%nat) as [[e g]|] eqn:H.
    + exists 0%nat, e, g. cbn [drop length]. rewrite Nat.add_0_r.
      repeat split; [lia|exact H|]. intros j Hj. lia.
    + specialize (IH (S pos)).
      destruct (search re s (S pos)) as [m|].
      * destruct IH as (k & e & g & Hk & -> & Hbt & Hmin).
        exists (S k), e, g. cbn [drop length].
        replace (pos + S k)%nat with (S pos + k)%nat by lia.
        repeat split; [lia|exact Hbt|].
        intros [|j] Hj; cbn [drop]; [now rewrite Nat.add_0_r|].
        replace (pos + S j)%nat with (S pos + j)%nat by lia.
        apply Hmin. lia.
      * intros [|j] Hj; cbn [drop]; [now rewrite Nat.add_0_r|].
        replace (pos + S j)%nat with (S pos + j)%nat by lia.
        apply IH. cbn in Hj. lia.
Qed.

Lemma blank_run_unique (c : ascii) sp :
  c <> " "%char ->
  forall sp' s s',
    sp ++ c :: s = sp' ++ c :: s' ->
    Forall (fun x => x = " "%char) sp -> Forall (fun x => x = " "%char) sp' ->
    sp = sp' /\ s = s'.
Proof.
  intros Hc. induction sp as [|x sp IH]; intros [|x' sp'] s s' Heq Hsp Hsp'.
  - now injection Heq.
  - injection Heq as -> _. apply Forall_cons in Hsp' as [-> _]. congruence.
  - injection Heq as -> _. apply Forall_cons in Hsp as [-> _]. congruence.
  - injection Heq as -> Heq.
    apply Forall_cons in Hsp as [_ Hsp]. apply Forall_cons in Hsp' as [_ Hsp'].
    destruct (IH _ _ _ Heq Hsp Hsp') as [-> ->]. auto.
Qed.

Lemma nonce_prefix_value_offset (s sp1 sp2 v post : list ascii) :
  nonce_prefix s sp1 sp2 v post ->
  drop (10 + length sp1 + 1 + length sp2 + 1) s = v ++ dquote :: post.
Proof.
  intros (-> & _).
  replace (list_ascii_of_string "csrf_nonce" ++ sp1 ++ "="%char :: sp2
             ++ dquote :: v ++ dquote :: post)
    with ((list_ascii_of_string "csrf_nonce" ++ sp1 ++ "="%char :: sp2 ++ [dquote])
            ++ v ++ dquote :: post).
  - apply drop_app_length'. rewrite !length_app. cbn [length list_ascii_of_string].
    rewrite length_app. cbn [length]. lia.
  - rewrite <- !app_assoc. cbn [app]. rewrite <- !app_assoc. reflexivity.
Qed.

Lemma nonce_prefix_longest s sp1 sp2 v post sp1' sp2' v' post' :
  nonce_prefix s sp1 sp2 v post ->
  nonce_prefix s sp1' sp2' v' post' ->
  v ++ dquote :: post = v' ++ dquote :: post'.
Proof.
  intros (-> & Hsp1 & Hsp2 & _) (Heq & Hsp1' & Hsp2' & _).
  apply app_inv_head in Heq.
  apply blank_run_unique in Heq as [<- Heq]; [|discriminate|exact Hsp1|exact Hsp1'].
  apply (blank_run_unique dquote) in Heq as [<- Heq];
    [exact Heq|discriminate|exact Hsp2|exact Hsp2'].
Qed.

(** What FindAllSubmatch finds for NONCEREGEXP: nothing when the body has
    no assignment to csrf_nonce; otherwise the value of the leftmost one,
    taken as long as the line allows. *)
Lemma FindAllSubmatch_NONCEREGEXP body :
  match FindAllSubmatch NONCEREGEXP body with
  | [] => forall pre sp1 sp2 v post, ~ nonce_occurrence body pre sp1 sp2 v post
  | m :: _ =>
      exists pre sp1 sp2 v post,
        nth 1 m [] = v
        /\ nonce_occurrence body pre sp1 sp2 v post
        /\ forall pre' sp1' sp2' v' post',
             nonce_occurrence body pre' sp1' sp2' v' post' ->
             (length pre <= length pre')%nat
             /\ (length pre' = length pre -> (length v' <= length v)%nat)
  end.
Proof.
  unfold FindAllSubmatch. pose proof (search_spec NONCEREGEXP body 0) as H.
  destruct (search NONCEREGEXP body 0) as [m|].
  - destruct H as (k & e & g & Hk & -> & Hbt & Hmin). cbn [Nat.add] in *.
    destruct (backtrack_NONCEREGEXP_sound _ _ _ _ Hbt)
      as (sp1 & sp2 & v & post & Hpre & Hg & Hmax).
    cbn [snd] in Hg. subst g. cbn [nth m_start m_end g_start g_end fst snd].
    exists (take k body), sp1, sp2, v, post. split; [|split].
    + unfold slice.
      replace (k + 10 + length sp1 + 1 + length sp2 + 1 + length v
               - (k + 10 + length sp1 + 1 + length sp2 + 1))%nat
        with (length v) by lia.
      replace (k + 10 + length sp1 + 1 + length sp2 + 1)%nat
        with (k + (10 + length sp1 + 1 + length sp2 + 1))%nat by lia.
      rewrite <- drop_drop, (nonce_prefix_value_offset _ _ _ _ _ Hpre).
      apply take_app_length.
    + exists (drop k body). split; [now rewrite take_drop|exact Hpre].
    + intros pre' sp1' sp2' v' post' (s' & Hbody & Hpre').
      assert (Hdrop : drop (length pre') body = s')
        by (rewrite Hbody; apply drop_app_length).
      rewrite length_take, Nat.min_l by exact Hk. split.
      * destruct (Nat.le_gt_cases k (length pre')) as [Hle|Hgt]; [exact Hle|].
        specialize (Hmin _ Hgt). rewrite Hdrop in Hmin.
        destruct (backtrack_NONCEREGEXP_complete _ _ _ _ _ (length pre') (0, 0)%nat Hpre')
          as (r & Hr).
        congruence.
      * intros Hlen. rewrite Hlen in Hdrop. subst s'.
        pose proof (nonce_prefix_longest _ _ _ _ _ _ _ _ _ Hpre Hpre') as Heq.
        destruct Hpre' as (_ & _ & _ & _ & Hany'). exact (Hmax _ _ Heq Hany').
  - intros pre sp1 sp2 v post (s & Hbody & Hpre). cbn [Nat.add] in H.
    assert (Hlen : (length pre <= length body)%nat)
      by (rewrite Hbody, length_app; lia).
    specialize (H _ Hlen). rewrite Hbody, drop_app_length in H.
    destruct (backtrack_NONCEREGEXP_complete _ _ _ _ _ (length pre) (0, 0)%nat Hpre)
      as (r & Hr).
    congruence.
Qed.


(** C5, as stated, fails: the body below holds a match of the pattern
    with \s, the nonce being set off by tabs, and getNonce does not find
    it. *)
Lemma getNonce_misses_tab_separated_nonce :
  FindAllSubmatch NONCEREGEXP_spec (list_ascii_of_string Sample.tabbed_page)
  = [[list_ascii_of_string Sample.tabbed_page; list_ascii_of_string "abc"]]
  /\ getNonce Sample.tabbing Sample.instance configureInstance_endpoint Sample.boot
     = Returns (inl Errorf_nonce)
               {| history := [http_Do (JarClient 7) (GET configureInstance_endpoint)];
                  now := 5000000 |}.
Proof.
  split; vm_compute; reflexivity.
Qed.

(** C5, amended: getNonce scans the body of the fetched page with the
    pattern csrf_nonce[ ]*=[ ]*"(.+)", which admits only space characters
    around the equals sign. It returns the error "Unable to find nonce in
    page" exactly when the body holds no match of that pattern, and
    otherwise the value captured by the first match: the match that begins
    leftmost, its value taken as far as the last quote that a line without
    a break allows. *)
Theorem getNonce_returns_first_nonce (env : Env) (ctf : ctfd) (path : string)
    (w : World) (d : N) (resp : Response) (content : string) :
  env_RoundTrip env (history w) (httpclient ctf) (GET path) = (d, inr resp) ->
  RespBody resp = inr content ->
  let body := list_ascii_of_string content in
  let w' := {| history := history w ++ [http_Do (httpclient ctf) (GET path)];
               now := now w + d |} in
  (getNonce env ctf path w = Returns (inl Errorf_nonce) w'
   /\ forall pre sp1 sp2 v post, ~ nonce_occurrence body pre sp1 sp2 v post)
  \/ (exists pre sp1 sp2 v post,
        getNonce env ctf path w = Returns (inr (string_of_list_ascii v)) w'
        /\ nonce_occurrence body pre sp1 sp2 v post
        /\ forall pre' sp1' sp2' v' post',
             nonce_occurrence body pre' sp1' sp2' v' post' ->
             (length pre <= length pre')%nat
             /\ (length pre' = length pre -> (length v' <= length v)%nat)).
Proof.
  intros Hrt Hbody body w'. rewrite getNonce_run, Hrt. fold w'.
  unfold nonce_in. rewrite Hbody. fold body.
  pose proof (FindAllSubmatch_NONCEREGEXP body) as H.
  destruct (FindAllSubmatch NONCEREGEXP body) as [|m ms].
  - left. split; [reflexivity|exact H].
  - right. destruct H as (pre & sp1 & sp2 & v & post & Hv & Hocc & Hfirst).
    exists pre, sp1, sp2, v, post. rewrite Hv. auto.
Qed.

Lemma getNonce_returns_first_nonce_witness :
  exists pre sp1 sp2 v post,
    getNonce Sample.healthy Sample.instance configureInstance_endpoint Sample.boot
    = Returns (inr (string_of_list_ascii v))
              {| history := [http_Do (JarClient 7) (GET configureInstance_endpoint)];
                 now := 5000000 |}
    /\ nonce_occurrence (list_ascii_of_string (Sample.page "abc")) pre sp1 sp2 v post.
Proof.
  destruct (getNonce_returns_first_nonce Sample.healthy Sample.instance
              configureInstance_endpoint Sample.boot 5000000%N
              {| StatusCode := 200; RespBody := inr (Sample.page "abc") |}
              (Sample.page "abc") eq_refl eq_refl)
    as [[Hnone _]|(pre & sp1 & sp2 & v & post & Hrun & Hocc & _)].
  - vm_compute in Hnone. discriminate Hnone.
  - exists pre, sp1, sp2, v, post. split; [exact Hrun|exact Hocc].
Defined.

(** ** Further properties of the package *)

Section PollShape.

Variable env : Env.
Variable path : string.

(** With fuel for the time left, the loop runs some rounds of failed
    probe and backoff and then either sees the deadline passed or makes
    one more probe, which is answered. *)
Lemma loop_shape n :
  forall deadline w,
    (deadline <= now w + N.of_nat n * time_Second)%N ->
    exists k r w',
      waitForServer_loop env (S n) path deadline w = Returns r w'
      /\ ((r = inl ServerUnavailableErr
           /\ (k <= n)%nat
           /\ history w' = history w ++ rounds path k)
          \/ (exists resp,
                r = verdict resp
                /\ (S k <= n)%nat
                /\ history w' = history w ++ rounds path k ++ [probe path])).
Proof.
  induction n as [|n IH]; intros deadline w Hfuel.
  - exists 0%nat, (inl ServerUnavailableErr), w. split.
    + apply loop_deadline. lia.
    + left. cbn [rounds]. now rewrite app_nil_r.
  - destruct (N.le_gt_cases deadline (now w)) as [Hle|Hgt].
    + exists 0%nat, (inl ServerUnavailableErr), w. split.
      * now apply loop_deadline.
      * left. cbn [rounds]. rewrite app_nil_r. repeat split. lia.
    + destruct (env_RoundTrip env (history w) DefaultClient (GET path))
        as [d [msg|resp]] eqn:Hrt.
      * rewrite (loop_retry _ _ _ _ _ _ _ Hgt Hrt).
        destruct (IH deadline {| history := history w ++ backoff path;
                                 now := now w + d + time_Second |})
          as (k & r & w' & Hrun & Hshape); [cbn [now]; lia|].
        exists (S k), r, w'. split; [exact Hrun|].
        cbn [history rounds] in *.
        destruct Hshape as [(-> & Hk & Hh)|(resp & -> & Hk & Hh)].
        -- left. repeat split; [lia|]. now rewrite Hh, <- app_assoc.
        -- right. exists resp. repeat split; [lia|].
           now rewrite Hh, <- !app_assoc.
      * eexists 0%nat, (verdict resp), _. split.
        -- exact (loop_response _ _ _ _ _ _ _ Hgt Hrt).
        -- right. exists resp. cbn [rounds history app]. repeat split. lia.
Qed.

End PollShape.

Lemma waitForServer_shape env path w :
  exists k r w',
    waitForServer env path w = Returns r w'
    /\ ((r = inl ServerUnavailableErr
         /\ (k <= 60)%nat
         /\ history w' = history w ++ rounds path k)
        \/ (exists resp,
              r = verdict resp
              /\ (k < 60)%nat
              /\ history w' = history w ++ rounds path k ++ [probe path])).
Proof.
  unfold waitForServer, bind, time_Now, waitForServer_fuel.
  change (N.to_nat (waitForServer_timeout / time_Second)) with 60%nat.
  destruct (loop_shape env path 60 (now w + waitForServer_timeout) w)
    as (k & r & w' & Hrun & Hshape).
  - change (N.of_nat 60 * time_Second)%N with waitForServer_timeout. lia.
  - exists k, r, w'. split; [exact Hrun|].
    destruct Hshape as [(-> & Hk & Hh)|(resp & -> & Hk & Hh)]; [left|right]; eauto.
Qed.

Lemma rounds_length path k : length (rounds path k) = (2 * k)%nat.
Proof. induction k as [|k IH]; cbn [rounds backoff app length] in *; lia. Qed.

Lemma rounds_probes path k :
  length (filter (fun e => is_http e = true) (rounds path k)) = k.
Proof.
  induction k as [|k IH]; [reflexivity|].
  cbn [rounds backoff app]. unfold probe at 1.
  rewrite filter_cons_True by reflexivity.
  rewrite filter_cons_False by (cbn; discriminate).
  cbn [length]. now rewrite IH.
Qed.

Lemma rounds_poll_calls path k :
  Forall (fun e => is_poll_call path e = true) (rounds path k).
Proof.
  induction k as [|k IH]; [constructor|].
  cbn [rounds backoff app]. constructor; [|constructor; [reflexivity|exact IH]].
  cbn. now rewrite String.eqb_refl.
Qed.

(** X1: waitForServer always returns, having made nothing but probes (a
    GET of the given path, without body, through the default client) and
    sleeps of one second: at most 60 probes and at most 60 sleeps. *)
Theorem waitForServer_polls_at_most_60_times (env : Env) (path : string) (w : World) :
  exists r w' tr,
    waitForServer env path w = Returns r w'
    /\ history w' = history w ++ tr
    /\ Forall (fun e => is_poll_call path e = true) tr
    /\ (length (filter (fun e => is_http e = true) tr) <= 60)%nat
    /\ (length (filter (fun e => is_Sleep e = true) tr) <= 60)%nat.
Proof.
  destruct (waitForServer_shape env path w)
    as (k & r & w' & Hrun & [(-> & Hk & Hh)|(resp & -> & Hk & Hh)]).
  - exists (inl ServerUnavailableErr), w', (rounds path k).
    repeat split; [exact Hrun|exact Hh|apply rounds_poll_calls| |].
    + rewrite rounds_probes. exact Hk.
    + rewrite rounds_sleeps. exact Hk.
  - exists (verdict resp), w', (rounds path k ++ [probe path]).
    repeat split; [exact Hrun|exact Hh| | |].
    + apply Forall_app. split; [apply rounds_poll_calls|].
      constructor; [|constructor]. cbn. now rewrite String.eqb_refl.
    + rewrite filter_app, length_app, rounds_probes. unfold probe.
      rewrite filter_cons_True by reflexivity. rewrite filter_nil. cbn [length]. lia.
    + rewrite filter_app, length_app, rounds_sleeps. unfold probe.
      rewrite filter_cons_False by (cbn; discriminate). rewrite filter_nil.
      cbn [length]. lia.
Qed.

(** X2: waitForServer never returns a transport error: what it returns is
    nil, ServerUnavailableErr, or the error for an unexpected status,
    which is then a status other than 200. *)
Theorem waitForServer_never_returns_transport_error (env : Env) (path : string) (w : World) :
  forall r w',
    waitForServer env path w = Returns r w' ->
    r = nil_error
    \/ r = inl ServerUnavailableErr
    \/ exists code, r = inl (Errorf_status code) /\ code <> 200%Z.
Proof.
  intros r w' Hrun.
  destruct (waitForServer_shape env path w)
    as (k & r0 & w0 & Hrun0 & Hshape).
  rewrite Hrun in Hrun0. injection Hrun0 as <- <-.
  destruct Hshape as [(-> & _)|(resp & -> & _)]; [auto|].
  unfold verdict. destruct (Z.eqb_spec (StatusCode resp) 200); [auto|].
  right. right. eauto.
Qed.

Lemma posts_follow_fetch_app a b :
  posts_follow_fetch a -> posts_follow_fetch b -> posts_follow_fetch (a ++ b).
Proof.
  intros Ha Hb i cl req Hi Hpost.
  apply lookup_app_Some in Hi as [Hi|[Hlen Hi]].
  - destruct (Ha _ _ _ Hi Hpost) as (j & -> & Hj).
    exists j. split; [reflexivity|]. now apply lookup_app_l_Some.
  - destruct (Hb _ _ _ Hi Hpost) as (j & Hij & Hj).
    exists (length a + j)%nat. split; [lia|].
    rewrite lookup_app_r by lia. now replace (length a + j - length a)%nat with j by lia.
Qed.

Lemma posts_follow_fetch_no_post tr :
  Forall (fun e => is_POST e = false) tr -> posts_follow_fetch tr.
Proof.
  intros H i cl req Hi Hpost.
  apply (Forall_lookup_1 _ _ _ _ H) in Hi. cbn in Hi. now rewrite Hpost in Hi.
Qed.

Lemma posts_follow_fetch_pair cl req :
  posts_follow_fetch [http_Do cl (GET (URL req)); http_Do cl req].
Proof.
  intros [|[|i]] cl' req' Hi Hpost.
  - injection Hi as <- <-. discriminate Hpost.
  - injection Hi as <- <-. now exists 0%nat.
  - discriminate Hi.
Qed.

Lemma configure_trace_nil session : configure_trace session [].
Proof.
  split; [constructor|]. intros i cl req Hi. discriminate Hi.
Qed.

Lemma configure_trace_app session a b :
  configure_trace session a -> configure_trace session b ->
  configure_trace session (a ++ b).
Proof.
  intros [Ha Ha'] [Hb Hb']. split.
  - apply Forall_app. auto.
  - now apply posts_follow_fetch_app.
Qed.

Lemma configure_trace_fetch session url :
  configure_trace session [http_Do session (GET url)].
Proof.
  split.
  - constructor; [now left|constructor].
  - apply posts_follow_fetch_no_post. constructor; [reflexivity|constructor].
Qed.

Lemma configure_trace_pair session req :
  configure_trace session [http_Do session (GET (URL req)); http_Do session req].
Proof.
  split.
  - constructor; [now left|]. constructor; [now left|constructor].
  - apply posts_follow_fetch_pair.
Qed.

Lemma configure_trace_log session name flag points :
  configure_trace session [log_Debug name flag points].
Proof.
  split.
  - constructor; [exact I|constructor].
  - apply posts_follow_fetch_no_post. constructor; [reflexivity|constructor].
Qed.

Lemma configure_trace_rounds session k :
  configure_trace session (rounds configureInstance_endpoint k).
Proof.
  induction k as [|k IH]; [apply configure_trace_nil|].
  cbn [rounds]. apply configure_trace_app; [|exact IH].
  split.
  - constructor; [right; now split|]. constructor; [reflexivity|constructor].
  - apply posts_follow_fetch_no_post. repeat constructor.
Qed.

Lemma configure_trace_probe session :
  configure_trace session [probe configureInstance_endpoint].
Proof.
  split.
  - constructor; [right; now split|constructor].
  - apply posts_follow_fetch_no_post. repeat constructor.
Qed.

(** The loop over the flags returns, with calls that configureInstance
    may make. *)
Lemma configureInstance_range_traced env ctf flags :
  traced (configure_trace (httpclient ctf)) (configureInstance_range env ctf flags).
Proof.
  induction flags as [|f rest IH]; intros w.
  - exists nil_error, w, []. rewrite app_nil_r.
    split; [reflexivity|]. split; [reflexivity|]. apply configure_trace_nil.
  - cbn [configureInstance_range]. unfold try at 1, bind at 1.
    rewrite createFlag_run.
    destruct (env_RoundTrip env (history w) (httpclient ctf) (GET createFlag_endpoint))
      as [d [msg|resp]]; cbn zeta.
    { eexists _, _, [fetch ctf]. split; [reflexivity|]. split; [reflexivity|].
      apply configure_trace_fetch. }
    destruct (nonce_in resp) as [err|nonce].
    { eexists _, _, [fetch ctf]. split; [reflexivity|]. split; [reflexivity|].
      apply configure_trace_fetch. }
    cbn [history].
    destruct (env_RoundTrip env (history w ++ [fetch ctf]) (httpclient ctf)
                (submission f nonce)) as [d' [msg|resp']].
    { eexists _, _, [fetch ctf; submit ctf f nonce].
      split; [reflexivity|]. split; [reflexivity|].
      apply (configure_trace_pair (httpclient ctf) (submission f nonce)). }
    cbn [ret]. unfold bind at 1, log_Debug_, call, nil_error.
    cbn beta iota. cbn [history now].
    destruct (IH {| history := (history w ++ [fetch ctf; submit ctf f nonce])
                                 ++ [log_Debug (flag_Name f) (flag_Default f) (flag_Points f)];
                    now := now w + d + d' |})
      as (r & w' & tr & Hrun & Hhist & Htr).
    cbn [history] in Hhist.
    exists r, w', ([fetch ctf; submit ctf f nonce] ++ [logged f] ++ tr).
    split; [exact Hrun|]. split.
    + rewrite Hhist, <- !app_assoc. reflexivity.
    + apply configure_trace_app;
        [apply (configure_trace_pair (httpclient ctf) (submission f nonce))|].
      apply configure_trace_app; [apply configure_trace_log|exact Htr].
Qed.

(** configureInstance returns, with calls that it may make. *)
Lemma configureInstance_traced env ctf :
  traced (configure_trace (httpclient ctf)) (configureInstance env ctf).
Proof.
  intros w. unfold configureInstance, try at 1, bind at 1.
  destruct (waitForServer_shape env configureInstance_endpoint w)
    as (k & r & w1 & Hrun & Hshape).
  rewrite Hrun.
  assert (Hpoll : exists ptr, history w1 = history w ++ ptr
                              /\ configure_trace (httpclient ctf) ptr).
  { destruct Hshape as [(_ & _ & Hh)|(resp & _ & _ & Hh)]; eexists; (split; [exact Hh|]).
    - apply configure_trace_rounds.
    - apply configure_trace_app; [apply configure_trace_rounds|apply configure_trace_probe]. }
  destruct Hpoll as (ptr & Hh1 & Hptr).
  destruct r as [err|[]].
  { exists (inl err), w1, ptr. auto. }
  unfold try at 1, bind at 1. rewrite getNonce_run.
  destruct (env_RoundTrip env (history w1) (httpclient ctf) (GET configureInstance_endpoint))
    as [d [msg|resp]]; cbn zeta.
  { eexists _, _, (ptr ++ [http_Do (httpclient ctf) (GET configureInstance_endpoint)]).
    split; [reflexivity|]. cbn [history]. split; [now rewrite Hh1, <- app_assoc|].
    apply configure_trace_app; [exact Hptr|apply configure_trace_fetch]. }
  destruct (nonce_in resp) as [err|nonce].
  { eexists _, _, (ptr ++ [http_Do (httpclient ctf) (GET configureInstance_endpoint)]).
    split; [reflexivity|]. cbn [history]. split; [now rewrite Hh1, <- app_assoc|].
    apply configure_trace_app; [exact Hptr|apply configure_trace_fetch]. }
  unfold try at 1, bind at 1, Client_Do. cbn [history now].
  set (req := configureInstance_request (conf ctf) nonce).
  assert (Hpair : configure_trace (httpclient ctf)
                    [http_Do (httpclient ctf) (GET configureInstance_endpoint);
                     http_Do (httpclient ctf) req])
    by apply (configure_trace_pair (httpclient ctf) req).
  destruct (env_RoundTrip env _ (httpclient ctf) req) as [d' [msg|resp']].
  { eexists _, _, (ptr ++ [http_Do (httpclient ctf) (GET configureInstance_endpoint);
                           http_Do (httpclient ctf) req]).
    split; [reflexivity|]. cbn [history].
    split; [now rewrite Hh1, <- !app_assoc|].
    apply configure_trace_app; [exact Hptr|exact Hpair]. }
  match goal with
  | |- context [configureInstance_range env ctf ?fl ?w2] =>
      destruct (configureInstance_range_traced env ctf fl w2)
        as (r & w' & str & Hrun2 & Hh2 & Hstr)
  end.
  cbn [history] in Hh2.
  exists r, w', (ptr ++ [http_Do (httpclient ctf) (GET configureInstance_endpoint);
                         http_Do (httpclient ctf) req] ++ str).
  split; [exact Hrun2|]. split.
  - rewrite Hh2, Hh1, <- !app_assoc. reflexivity.
  - apply configure_trace_app; [exact Hptr|].
    apply configure_trace_app; [exact Hpair|exact Hstr].
Qed.

Lemma waitForServer_never_returns_transport_error_witness :
  (inl (Errorf_status 204) : error + unit) = nil_error
  \/ (inl (Errorf_status 204) : error + unit) = inl ServerUnavailableErr
  \/ exists code,
       (inl (Errorf_status 204) : error + unit) = inl (Errorf_status code)
       /\ code <> 200%Z.
Proof.
  refine (waitForServer_never_returns_transport_error
            Sample.no_content configureInstance_endpoint Sample.boot _
            {| history := [probe configureInstance_endpoint]; now := 5000000 |} _).
  vm_compute. reflexivity.
Defined.

(** X3: configureInstance always returns, and the calls it makes are HTTP
    exchanges through the instance's client, probes of the setup page
    through the default client, sleeps of one second and log lines: it
    makes no call on a container and removes nothing. *)
Theorem configureInstance_makes_only_http_calls (env : Env) (ctf : ctfd) (w : World) :
  exists r w' tr,
    configureInstance env ctf w = Returns r w'
    /\ history w' = history w ++ tr
    /\ Forall (configure_ok (httpclient ctf)) tr
    /\ existsb is_Container_call tr = false
    /\ existsb is_RemoveAll tr = false.
Proof.
  destruct (configureInstance_traced env ctf w) as (r & w' & tr & Hrun & Hh & Hok & _).
  exists r, w', tr. repeat split; [exact Hrun|exact Hh|exact Hok| |].
  - clear Hh Hrun. induction Hok as [|e tr He _ IH]; [reflexivity|].
    cbn [existsb]. rewrite IH. now destruct e.
  - clear Hh Hrun. induction Hok as [|e tr He _ IH]; [reflexivity|].
    cbn [existsb]. rewrite IH. now destruct e.
Qed.

(** X4: in every run of configureInstance, each POST (the setup form and
    every challenge) goes through the instance's client and comes right
    after a GET of the same URL through that client: the page that gives
    the nonce. *)
Theorem configureInstance_posts_follow_nonce_fetch (env : Env) (ctf : ctfd) (w : World) :
  exists r w' tr,
    configureInstance env ctf w = Returns r w'
    /\ history w' = history w ++ tr
    /\ forall i cl req,
         tr !! i = Some (http_Do cl req) ->
         Method req = "POST" ->
         cl = httpclient ctf
         /\ exists j, i = S j /\ tr !! j = Some (http_Do (httpclient ctf) (GET (URL req))).
Proof.
  destruct (configureInstance_traced env ctf w) as (r & w' & tr & Hrun & Hh & Hok & Hpff).
  exists r, w', tr. split; [exact Hrun|]. split; [exact Hh|].
  intros i cl req Hi Hpost.
  pose proof (Forall_lookup_1 _ _ _ _ Hok Hi) as Hcl. cbn in Hcl.
  destruct Hcl as [->|[_ ->]]; [|discriminate Hpost].
  split; [reflexivity|].
  destruct (Hpff _ _ _ Hi Hpost) as (j & -> & Hj). now exists j.
Qed.

Lemma New_trace env conf w :
  exists r w' tr,
    New env conf w = Returns r w'
    /\ history w' = history w ++ tr
    /\ New_calls conf r tr.
Proof.
  unfold New, try at 1, bind at 1, cookiejar_New_, call. cbn [history now].
  destruct (env_cookiejar_New env (history w)) as [err|jar].
  { eexists _, _, _. split; [reflexivity|]. split; [reflexivity|].
    apply (New_stops_early conf EmptyString EmptyString 0%nat 1). lia. }
  cbn beta iota. unfold try at 1, bind at 1, docker_GetDockerHostIP_, call.
  cbn [history now]. rewrite <- ?app_assoc. cbn [app].
  destruct (env_GetDockerHostIP env _) as [err|ip].
  { eexists _, _, _. split; [reflexivity|]. cbn [history].
    split; [rewrite <- ?app_assoc; reflexivity|].
    apply (New_stops_early conf EmptyString EmptyString 0%nat 2). lia. }
  cbn beta iota. unfold try at 1, bind at 1, ioutil_TempDir_, call.
  cbn [history now]. rewrite <- ?app_assoc. cbn [app].
  destruct (env_TempDir env _ _ _) as [err|dir].
  { eexists _, _, _. split; [reflexivity|]. cbn [history].
    split; [rewrite <- ?app_assoc; reflexivity|].
    apply (New_stops_early conf EmptyString EmptyString 0%nat 3). lia. }
  cbn beta iota. unfold try at 1, bind at 1, docker_NewContainer_ at 1, call.
  cbn [history now]. rewrite <- ?app_assoc. cbn [app].
  destruct (env_NewContainer env _ (initConf dir ip)) as [err|c].
  { eexists _, _, _. split; [reflexivity|]. cbn [history].
    split; [rewrite <- ?app_assoc; reflexivity|].
    apply (New_stops_early conf dir ip 0%nat 4). lia. }
  cbn beta iota. unfold try at 1, bind at 1, Container_Start_, call.
  cbn [history now]. rewrite <- ?app_assoc. cbn [app].
  destruct (env_Start env _ c) as [err|[]].
  { eexists _, _, _. split; [reflexivity|]. cbn [history].
    split; [rewrite <- ?app_assoc; reflexivity|].
    apply (New_stops_early conf dir ip c 5). lia. }
  cbn beta iota. fold (New_prologue dir ip c).
  unfold try at 1, bind at 1.
  match goal with
  | |- context [configureInstance env ?ctf ?w1] =>
      destruct (configureInstance_traced env ctf w1)
        as (r & w2 & ctr & Hrun & Hh & Hctr)
  end.
  rewrite Hrun. cbn [history httpclient] in Hh, Hctr.
  rewrite <- app_assoc in Hh.
  destruct r as [err|[]].
  { eexists _, _, _. split; [reflexivity|]. split; [exact Hh|].
    now apply New_stops_configuring with (jar := jar). }
  unfold try at 1, bind at 1, Container_Close_, call.
  destruct (env_Close env (history w2) c) as [err|[]].
  { eexists _, _, _. split; [reflexivity|]. cbn [history].
    split; [rewrite Hh, <- ?app_assoc; reflexivity|].
    now apply New_stops_closing with (jar := jar). }
  cbn beta iota. unfold try at 1, bind at 1, docker_NewContainer_, call.
  cbn [history now].
  destruct (env_NewContainer env _ (finalConf dir ip)) as [err|c'].
  { eexists _, _, _. split; [reflexivity|]. cbn [history].
    split; [rewrite Hh, <- ?app_assoc; reflexivity|].
    now apply New_stops_creating with (jar := jar). }
  eexists _, _, _. split; [reflexivity|]. cbn [history].
  split; [rewrite Hh, <- ?app_assoc; reflexivity|].
  now apply New_goes_through.
Qed.

Lemma configure_trace_no_container_call session tr :
  configure_trace session tr ->
  filter (fun e => is_Container_call e = true) tr = []
  /\ Forall (fun e => match e with
                      | os_RemoveAll _ | Container_Stop _ | Container_ID _ => False
                      | _ => True
                      end) tr.
Proof.
  intros [Hok _]. induction Hok as [|e tr He _ [IH1 IH2]]; [split; [reflexivity|constructor]|].
  split.
  - rewrite filter_cons_False; [exact IH1|]. destruct e; cbn in *; try discriminate; tauto.
  - constructor; [|exact IH2]. destruct e; cbn in *; tauto.
Qed.

(** X5: New always returns, and whatever fails, it never removes the data
    directory and never calls Stop or ID on a container. *)
Theorem New_never_cleans_up (env : Env) (conf : Config) (w : World) :
  exists r w' tr,
    New env conf w = Returns r w'
    /\ history w' = history w ++ tr
    /\ Forall (fun e => match e with
                        | os_RemoveAll _ | Container_Stop _ | Container_ID _ => False
                        | _ => True
                        end) tr.
Proof.
  destruct (New_trace env conf w) as (r & w' & tr & Hrun & Hh & Hcalls).
  exists r, w', tr. split; [exact Hrun|]. split; [exact Hh|].
  destruct Hcalls as [dir ip c n err Hn|dir ip c jar ctr err Hctr|dir ip c jar ctr err Hctr
                     |dir ip c jar ctr err Hctr|dir ip c jar ctr c' Hctr];
    try (apply configure_trace_no_container_call in Hctr as [_ Hctr]).
  - apply Forall_take. repeat constructor.
  - apply Forall_app. split; [repeat constructor|exact Hctr].
  - apply Forall_app. split; [repeat constructor|].
    apply Forall_app. split; [exact Hctr|repeat constructor].
  - apply Forall_app. split; [repeat constructor|].
    apply Forall_app. split; [exact Hctr|repeat constructor].
  - apply Forall_app. split; [repeat constructor|].
    apply Forall_app. split; [exact Hctr|repeat constructor].
Qed.

(** X6: the calls New makes on the container runtime are, in every run,
    a prefix of: create the setup container, start it, close it, create
    the serving container; and they are all four when New returns an
    instance. The serving container is thus created only after the call
    that closes the setup container. *)
Theorem New_container_calls_are_a_prefix_of_the_lifecycle
    (env : Env) (conf : Config) (w : World) :
  exists r w' tr dir ip c,
    New env conf w = Returns r w'
    /\ history w' = history w ++ tr
    /\ filter (fun e => is_Container_call e = true) tr `prefix_of` New_lifecycle dir ip c
    /\ (forall ctf, r = inr ctf ->
        filter (fun e => is_Container_call e = true) tr = New_lifecycle dir ip c).
Proof.
  destruct (New_trace env conf w) as (r & w' & tr & Hrun & Hh & Hcalls).
  destruct Hcalls as [dir ip c n err Hn|dir ip c jar ctr err Hctr|dir ip c jar ctr err Hctr
                     |dir ip c jar ctr err Hctr|dir ip c jar ctr c' Hctr];
    try (apply configure_trace_no_container_call in Hctr as [Hctr _]);
    eexists _, w', _, dir, ip, c;
    (split; [exact Hrun|]); (split; [exact Hh|]);
    rewrite ?filter_app, ?Hctr; (split; [|try discriminate]).
  - destruct n as [|[|[|[|[|[|n]]]]]]; try lia; cbn [take New_prologue].
    + now exists (New_lifecycle dir ip c).
    + now exists (New_lifecycle dir ip c).
    + now exists (New_lifecycle dir ip c).
    + now exists [Container_Start c; Container_Close c;
                  docker_NewContainer (finalConf dir ip)].
    + now exists [Container_Close c; docker_NewContainer (finalConf dir ip)].
  - now exists [Container_Close c; docker_NewContainer (finalConf dir ip)].
  - now exists [docker_NewContainer (finalConf dir ip)].
  - now exists [].
  - now exists [].
  - reflexivity.
Qed.

(** X7: an instance that New returns keeps the flags of the
    configuration, holds a container and a client with a cookie jar, and
    its data directory is the one mounted, at the same place, into both
    containers New created; Start, Stop, Close and ID on it return
    and do not panic. *)
Theorem New_instance_is_complete (env : Env) (cfg : Config) (w w' : World) (ctf : ctfd) :
  New env cfg w = Returns (inr ctf) w' ->
  Flags_ ctf = Flags cfg
  /\ (exists c jar ip tr,
        cont ctf = Some c
        /\ httpclient ctf = JarClient jar
        /\ history w' = history w ++ tr
        /\ In (docker_NewContainer (initConf (confDir ctf) ip)) tr
        /\ In (docker_NewContainer (finalConf (confDir ctf) ip)) tr
        /\ Mounts (finalConf (confDir ctf) ip) = [confDir ctf +:+ "/:/opt/CTFd/CTFd/data"]
        /\ Mounts (initConf (confDir ctf) ip) = Mounts (finalConf (confDir ctf) ip))
  /\ (forall env' w2,
        (exists r w3, Start env' ctf w2 = Returns r w3)
        /\ (exists r w3, Stop env' ctf w2 = Returns r w3)
        /\ (exists r w3, Close env' ctf w2 = Returns r w3)
        /\ (exists r w3, ID env' ctf w2 = Returns r w3)).
Proof.
  intros Hrun.
  destruct (New_trace env cfg w) as (r & w0 & tr & Hrun0 & Hh & Hcalls).
  rewrite Hrun in Hrun0. injection Hrun0 as <- <-.
  inversion Hcalls as [| | | |dir ip c jar ctr c' Hctr Hctf Htr]. subst tr ctf.
  cbn [Flags_ conf cont confDir httpclient].
  split; [reflexivity|]. split.
  - eexists c', jar, ip, _. split; [reflexivity|]. split; [reflexivity|].
    split; [exact Hh|]. split; [|split; [|split; reflexivity]].
    + apply in_or_app. left. cbn. tauto.
    + apply in_or_app. right. apply in_or_app. right. cbn. tauto.
  - intros env' w2. unfold Start, Stop, Close, ID. cbn [cont confDir deref].
    repeat split; try (eexists _, _; reflexivity).
    unfold try, bind, os_RemoveAll_, Container_Close_, call.
    destruct (env_RemoveAll env' _ _) as [e|[]]; [eexists _, _; reflexivity|].
    cbn [ret history now]. destruct (env_Close env' _ _) as [e|[]]; eexists _, _; reflexivity.
Qed.

Lemma New_instance_is_complete_witness :
  exists w', New Sample.healthy Sample.demo Sample.boot = Returns (inr Sample.instance) w'
             /\ Flags_ Sample.instance = [Sample.flagA; Sample.flagB].
Proof.
  assert (H : exists w', New Sample.healthy Sample.demo Sample.boot
                         = Returns (inr Sample.instance) w')
    by (eexists; vm_compute; reflexivity).
  destruct H as [w' H]. exists w'. split; [exact H|].
  exact (proj1 (New_instance_is_complete _ _ _ _ _ H)).
Defined.

(** X8: a nonce that getNonce returns is not empty and holds no line
    feed, and getNonce has made one call to get it: the GET of the page
    through the instance's client. *)
Theorem getNonce_nonce_is_nonempty_line (env : Env) (ctf : ctfd) (path : string)
    (w w' : World) (nonce : string) :
  getNonce env ctf path w = Returns (inr nonce) w' ->
  nonce <> EmptyString
  /\ ~ In newline (list_ascii_of_string nonce)
  /\ history w' = history w ++ [http_Do (httpclient ctf) (GET path)].
Proof.
  rewrite getNonce_run.
  destruct (env_RoundTrip env (history w) (httpclient ctf) (GET path)) as [d [msg|resp]];
    [discriminate|].
  cbn zeta. unfold nonce_in.
  destruct (RespBody resp) as [err|content]; [discriminate|].
  pose proof (FindAllSubmatch_NONCEREGEXP (list_ascii_of_string content)) as H.
  destruct (FindAllSubmatch NONCEREGEXP (list_ascii_of_string content)) as [|m ms];
    [discriminate|].
  destruct H as (pre & sp1 & sp2 & v & post & -> & (s & _ & _ & _ & _ & Hv & Hany) & _).
  intros [= <- <-]. rewrite list_ascii_of_string_of_list_ascii.
  split; [|split; [|reflexivity]].
  - destruct v; [congruence|discriminate].
  - intros Hin. rewrite Forall_forall in Hany. apply (Hany newline); [|reflexivity].
    now apply list_elem_of_In.
Qed.

Lemma getNonce_nonce_is_nonempty_line_witness :
  "abc" <> EmptyString /\ ~ In newline (list_ascii_of_string "abc").
Proof.
  assert (H : getNonce Sample.healthy Sample.instance configureInstance_endpoint Sample.boot
              = Returns (inr "abc")
                  {| history := [http_Do (JarClient 7) (GET configureInstance_endpoint)];
                     now := 5000000 |}) by (vm_compute; reflexivity).
  destruct (getNonce_nonce_is_nonempty_line _ _ _ _ _ _ H) as (H1 & H2 & _).
  exact (conj H1 H2).
Defined.

(** X9: the challenge form has nine fields whatever the values, and the
    request made of it determines the name, the secret, the points and the
    nonce it was made from: two requests are equal only if these are. *)
Theorem createFlag_request_keeps_its_values :
  (forall name flag points nonce,
      size (createFlag_values name flag points nonce) = 9%nat)
  /\ (forall name flag points nonce name' flag' points' nonce',
        createFlag_request name flag points nonce
        = createFlag_request name' flag' points' nonce' ->
        name = name' /\ flag = flag' /\ points = points' /\ nonce = nonce').
Proof.
  split.
  - intros. reflexivity.
  - intros name flag points nonce name' flag' points' nonce' H.
    apply (f_equal (fun r => match ReqBody r with Multipart m => m | _ => ∅ end)) in H.
    cbn [createFlag_request ReqBody] in H.
    assert (Hl : forall k, createFlag_values name flag points nonce !! k
                           = createFlag_values name' flag' points' nonce' !! k)
      by (intros k; now rewrite H).
    clear H.
    pose proof (Hl "name") as Hname. pose proof (Hl "key") as Hkey.
    pose proof (Hl "value") as Hvalue. pose proof (Hl "nonce") as Hnonce.
    unfold createFlag_values in *. cbn [list_to_map foldr uncurry] in *.
    repeat (rewrite lookup_insert_ne in Hname by discriminate).
    repeat (rewrite lookup_insert_ne in Hkey by discriminate).
    repeat (rewrite lookup_insert_ne in Hvalue by discriminate).
    repeat (rewrite lookup_insert_ne in Hnonce by discriminate).
    rewrite !lookup_insert_eq in Hname, Hkey, Hvalue, Hnonce.
    injection Hname as ->. injection Hkey as ->. injection Hnonce as ->.
    injection Hvalue as Hp. apply (inj pretty) in Hp. auto.
Qed.

(** ** The event commands *)

Lemma streaming_command_unfold run T req :
  streaming_command run T req ->
  forall srv fuel h,
    run srv fuel h =
      match Cli.srv_open srv h T req with
      | inl msg => Cli.Done (h ++ [Cli.rpc T req; Cli.PrintError msg])
      | inr _ => Cli.Recv_loop srv fuel (h ++ [Cli.rpc T req])
      end.
Proof. intros [fl tag rest|tag rest|eventTag labTag rest] srv fuel h; reflexivity. Qed.

Lemma Recv_loop_drains srv n :
  forall fuel h last,
    stream_yields srv h n last ->
    (n < fuel)%nat ->
    Cli.Recv_loop srv fuel h
    = Cli.Done (h ++ replicate (S n) Cli.Recv ++ printed_at_end last).
Proof.
  induction n as [|n IH]; intros fuel h last (Hmsg & Hlast & Hend) Hfuel;
    (destruct fuel as [|fuel]; [lia|]); cbn [Cli.Recv_loop].
  - cbn [replicate] in Hlast. rewrite app_nil_r in Hlast. rewrite Hlast.
    destruct last as [|  |msg]; [congruence|reflexivity|reflexivity].
  - pose proof (Hmsg 0%nat ltac:(lia)) as H0. cbn [replicate] in H0.
    rewrite app_nil_r in H0. rewrite H0.
    rewrite (IH fuel (h ++ [Cli.Recv]) last); [|split; [|split]|lia].
    + now rewrite <- app_assoc.
    + intros i Hi. rewrite <- app_assoc. apply (Hmsg (S i)). lia.
    + now rewrite <- app_assoc.
    + exact Hend.
Qed.

(** The calls of the loop, however far it gets: Recvs, and at most one
    error printed, after which the loop is left. *)
Lemma Recv_loop_shape srv fuel :
  forall h, exists k,
    Cli.calls (Cli.Recv_loop srv fuel h) = h ++ replicate k Cli.Recv
    \/ exists msg,
         Cli.Recv_loop srv fuel h
         = Cli.Done (h ++ replicate k Cli.Recv ++ [Cli.PrintError msg]).
Proof.
  induction fuel as [|fuel IH]; intros h; cbn [Cli.Recv_loop].
  - exists 0%nat. left. cbn. now rewrite app_nil_r.
  - destruct (Cli.srv_recv srv h) as [| |msg].
    + destruct (IH (h ++ [Cli.Recv])) as (k & [Hk|(msg & Hk)]); exists (S k).
      * left. rewrite Hk, <- app_assoc. reflexivity.
      * right. exists msg. rewrite Hk, <- app_assoc. reflexivity.
    + exists 1%nat. left. reflexivity.
    + exists 1%nat. right. exists msg. reflexivity.
Qed.

(** X10: each of the create, stop and restart commands, once its RPC has
    opened a stream that gives n messages and then ends, calls Recv n+1
    times and stops; it prints nothing when the stream ends with io.EOF
    and the error, once, when it ends with an error. *)
Theorem streaming_command_reads_to_the_end run T req srv fuel h n last :
  streaming_command run T req ->
  Cli.srv_open srv h T req = inr tt ->
  stream_yields srv (h ++ [Cli.rpc T req]) n last ->
  (n < fuel)%nat ->
  run srv fuel h
  = Cli.Done (h ++ Cli.rpc T req :: replicate (S n) Cli.Recv ++ printed_at_end last).
Proof.
  intros Hcmd Hopen Hstream Hfuel.
  rewrite (streaming_command_unfold _ _ _ Hcmd), Hopen.
  rewrite (Recv_loop_drains _ _ _ _ _ Hstream Hfuel).
  now rewrite <- app_assoc.
Qed.

Lemma streaming_command_reads_to_the_end_witness :
  Cli.CmdEventStop_Run two_messages 10 ["ctf1"] []
  = Cli.Done [Cli.rpc CmdEventStop_timeout (Cli.StopEvent "ctf1");
              Cli.Recv; Cli.Recv; Cli.Recv].
Proof.
  refine (streaming_command_reads_to_the_end _ _ _ two_messages 10 [] 2 Cli.EOF
            (streaming_stop "ctf1" []) eq_refl _ _).
  - split; [|split; [reflexivity|discriminate]].
    intros [|[|i]] Hi; try reflexivity. lia.
  - lia.
Defined.

(** X11: the calls of the create, stop and restart commands are, however
    far they get, one RPC with the command's timeout followed by Recvs,
    and at most one printed error, which then is the last call; when
    the RPC itself fails, the error is printed and Recv is never
    called. *)
Theorem streaming_command_prints_at_most_one_error run T req srv fuel h :
  streaming_command run T req ->
  (exists k,
      Cli.calls (run srv fuel h) = h ++ Cli.rpc T req :: replicate k Cli.Recv
      \/ exists msg,
           run srv fuel h
           = Cli.Done (h ++ Cli.rpc T req :: replicate k Cli.Recv ++ [Cli.PrintError msg]))
  /\ (forall msg,
        Cli.srv_open srv h T req = inl msg ->
        run srv fuel h = Cli.Done (h ++ [Cli.rpc T req; Cli.PrintError msg])).
Proof.
  intros Hcmd. rewrite (streaming_command_unfold _ _ _ Hcmd). split.
  - destruct (Cli.srv_open srv h T req) as [msg|[]].
    + exists 0%nat. right. exists msg. reflexivity.
    + destruct (Recv_loop_shape srv fuel (h ++ [Cli.rpc T req])) as (k & [Hk|(msg & Hk)]);
        exists k; [left|right; exists msg]; rewrite Hk, <- app_assoc; reflexivity.
  - intros msg ->. reflexivity.
Qed.

Lemma streaming_command_prints_at_most_one_error_witness :
  exists k,
    Cli.calls (Cli.CmdEventStop_Run two_messages 1 ["ctf1"] [])
    = [] ++ Cli.rpc CmdEventStop_timeout (Cli.StopEvent "ctf1") :: replicate k Cli.Recv
    \/ exists msg,
         Cli.CmdEventStop_Run two_messages 1 ["ctf1"] []
         = Cli.Done ([] ++ Cli.rpc CmdEventStop_timeout (Cli.StopEvent "ctf1")
                        :: replicate k Cli.Recv ++ [Cli.PrintError msg]).
Proof.
  exact (proj1 (streaming_command_prints_at_most_one_error _ _ _ two_messages 1 []
                  (streaming_stop "ctf1" []))).
Defined.

(** X12: for the create, stop, teams and restart commands, Run indexes
    its arguments out of range exactly when it is given fewer than the
    command's MinimumNArgs. Run through cobra, a command with too few
    arguments is refused for that and Run is not called; with enough
    arguments, it is refused when a flag marked as required (the name of
    the create command) was not given, again without a call of Run, and
    otherwise Run is called and does not panic. So a command run through
    cobra never panics on its arguments. *)
Theorem event_commands_never_index_out_of_range (fl : Cli.CreateFlags) (cmd : Cli.Command) :
  In cmd [Cli.CmdEventCreate fl; Cli.CmdEventStop; Cli.CmdEventTeams;
          Cli.CmdEventTeamRestart] ->
  forall srv fuel changed args h,
    ((length args < Cli.MinimumNArgs cmd)%nat ->
     Cli.Run cmd srv fuel args h = Cli.Panic h
     /\ Cli.execute cmd srv fuel changed args h
        = inl (Cli.TooFewArgs (Cli.MinimumNArgs cmd) (length args)))
    /\ ((Cli.MinimumNArgs cmd <= length args)%nat ->
        (forall h', Cli.Run cmd srv fuel args h <> Cli.Panic h')
        /\ ((forall f, f ∈ Cli.RequiredFlags cmd -> f ∈ changed) ->
            Cli.execute cmd srv fuel changed args h = inr (Cli.Run cmd srv fuel args h))
        /\ (forall f, f ∈ Cli.RequiredFlags cmd -> f ∉ changed ->
            exists missing,
              Cli.execute cmd srv fuel changed args h
              = inl (Cli.RequiredFlagsNotSet missing)
              /\ f ∈ missing))
    /\ (forall h', Cli.execute cmd srv fuel changed args h <> inr (Cli.Panic h'))
    /\ (Cli.RequiredFlags cmd = []
        \/ (cmd = Cli.CmdEventCreate fl /\ Cli.RequiredFlags cmd = ["name"])).
Proof.
  intros Hin srv fuel changed args h.
  assert (Hloop : forall h0 h', Cli.Recv_loop srv fuel h0 <> Cli.Panic h').
  { clear. induction fuel as [|fuel IH]; intros h0 h'; cbn [Cli.Recv_loop];
      [discriminate|].
    destruct (Cli.srv_recv srv h0); [apply IH|discriminate|discriminate]. }
  assert (Hrun : (Cli.MinimumNArgs cmd <= length args)%nat ->
                 forall h', Cli.Run cmd srv fuel args h <> Cli.Panic h').
  { intros Hle h'.
    destruct Hin as [<-|[<-|[<-|[<-|[]]]]]; cbn in *;
      destruct args as [|a [|b args]]; cbn in *; try lia;
      unfold Cli.CmdEventCreate_Run, Cli.CmdEventStop_Run, Cli.CmdEventTeams_Run,
        Cli.CmdEventTeamRestart_Run; cbn [lookup list_lookup];
      repeat match goal with
             | |- context [match ?x with inl _ => _ | inr _ => _ end] => destruct x
             end;
      try discriminate; apply Hloop. }
  split; [|split; [|split]].
  - intros Hlt. split.
    + destruct Hin as [<-|[<-|[<-|[<-|[]]]]]; cbn in *;
        destruct args as [|a [|b args]]; cbn in *; try lia; reflexivity.
    + unfold Cli.execute. apply Nat.ltb_lt in Hlt. now rewrite Hlt.
  - intros Hle. split; [exact (Hrun Hle)|].
    unfold Cli.execute. pose proof Hle as Hge. apply Nat.ltb_ge in Hge. rewrite Hge.
    split.
    + intros Hall.
      destruct (filter (fun f => f ∉ changed) (Cli.RequiredFlags cmd)) as [|f l] eqn:Hf;
        [reflexivity|].
      assert (Hin' : f ∈ filter (fun f => f ∉ changed) (Cli.RequiredFlags cmd))
        by (rewrite Hf; left).
      apply list_elem_of_filter in Hin' as [Hnot Hreq]. now apply Hall in Hreq.
    + intros f Hreq Hnot.
      assert (Hin' : f ∈ filter (fun f => f ∉ changed) (Cli.RequiredFlags cmd))
        by (apply list_elem_of_filter; auto).
      destruct (filter (fun f => f ∉ changed) (Cli.RequiredFlags cmd)) as [|f' l];
        [inversion Hin'|].
      eexists. split; [reflexivity|exact Hin'].
  - intros h'. unfold Cli.execute.
    destruct (Nat.ltb_spec (length args) (Cli.MinimumNArgs cmd)) as [Hlt|Hle];
      [discriminate|].
    destruct (filter (fun f => f ∉ changed) (Cli.RequiredFlags cmd)); [|discriminate].
    intros [= Hp]. exact (Hrun Hle h' Hp).
  - destruct Hin as [<-|[<-|[<-|[<-|[]]]]]; cbn; auto.
Qed.

Lemma event_commands_never_index_out_of_range_witness :
  (Cli.Run Cli.CmdEventTeamRestart two_messages 10 ["ctf1"] [] = Cli.Panic []
   /\ Cli.execute Cli.CmdEventTeamRestart two_messages 10 [] ["ctf1"] []
      = inl (Cli.TooFewArgs 2 1))
  /\ (let fl := {| Cli.name := EmptyString; Cli.buffer := 2; Cli.capacity := 10;
                   Cli.frontends := []; Cli.exercises := [] |} in
      exists missing,
        Cli.execute (Cli.CmdEventCreate fl) two_messages 10 ["capacity"] ["ctf1"] []
        = inl (Cli.RequiredFlagsNotSet missing)
        /\ "name" ∈ missing).
Proof.
  split.
  - refine (proj1 (event_commands_never_index_out_of_range
                     {| Cli.name := "x"; Cli.buffer := 2; Cli.capacity := 10;
                        Cli.frontends := []; Cli.exercises := [] |}
                     Cli.CmdEventTeamRestart _ two_messages 10 [] ["ctf1"] []) _).
    + cbn. tauto.
    + cbn. lia.
  - intros fl.
    refine (proj2 (proj2 (proj1 (proj2 (event_commands_never_index_out_of_range
                     fl (Cli.CmdEventCreate fl) _ two_messages 10 ["capacity"] ["ctf1"] []))
                     _)) "name" _ _).
    + cbn. tauto.
    + cbn. lia.
    + cbn. left.
    + intros Hin. apply list_elem_of_In in Hin. cbn in Hin.
      destruct Hin as [Hin|[]]. discriminate Hin.
Defined.

(** X13: the create command sends name, tag, frontends and exercises as
    given, and capacity and buffer converted to int32: within the 32-bit
    range, equal to the flag modulo 2^32, and equal to the flag itself
    when that lies within the range. *)
Theorem CmdEventCreate_sends_capacity_as_int32 (srv : Cli.Server) (fuel : nat)
    (fl : Cli.CreateFlags) (tag : string) (rest : list string) (h : list Cli.call) :
  exists r tail,
    Cli.calls (Cli.CmdEventCreate_Run srv fuel fl (tag :: rest) h)
    = h ++ Cli.rpc CmdEventCreate_timeout (Cli.CreateEvent r) :: tail
    /\ Cli.Name r = Cli.name fl /\ Cli.Tag r = tag
    /\ Cli.Frontends r = Cli.frontends fl /\ Cli.Exercises r = Cli.exercises fl
    /\ (- 2 ^ 31 <= Cli.Capacity r < 2 ^ 31)%Z
    /\ (- 2 ^ 31 <= Cli.Buffer r < 2 ^ 31)%Z
    /\ ((Cli.Capacity r - Cli.capacity fl) mod 2 ^ 32 = 0)%Z
    /\ ((Cli.Buffer r - Cli.buffer fl) mod 2 ^ 32 = 0)%Z
    /\ ((- 2 ^ 31 <= Cli.capacity fl < 2 ^ 31)%Z -> Cli.Capacity r = Cli.capacity fl)
    /\ ((- 2 ^ 31 <= Cli.buffer fl < 2 ^ 31)%Z -> Cli.Buffer r = Cli.buffer fl).
Proof.
  assert (Hrange : forall x, (- 2 ^ 31 <= Cli.int32 x < 2 ^ 31)%Z).
  { intros x. unfold Cli.int32.
    pose proof (Z.mod_pos_bound (x + 2 ^ 31) (2 ^ 32) ltac:(lia)). lia. }
  assert (Hmod : forall x, ((Cli.int32 x - x) mod 2 ^ 32 = 0)%Z).
  { intros x. unfold Cli.int32.
    rewrite (Z.mod_eq (x + 2 ^ 31) (2 ^ 32)) by lia.
    replace (x + 2 ^ 31 - 2 ^ 32 * ((x + 2 ^ 31) / 2 ^ 32) - 2 ^ 31 - x)%Z
      with (- ((x + 2 ^ 31) / 2 ^ 32) * 2 ^ 32)%Z by lia.
    apply Z.mod_mul. lia. }
  assert (Hid : forall x, (- 2 ^ 31 <= x < 2 ^ 31)%Z -> Cli.int32 x = x).
  { intros x Hx. unfold Cli.int32. rewrite Z.mod_small by lia. lia. }
  pose (r := {| Cli.Name := Cli.name fl; Cli.Tag := tag;
                Cli.Frontends := Cli.frontends fl; Cli.Exercises := Cli.exercises fl;
                Cli.Capacity := Cli.int32 (Cli.capacity fl);
                Cli.Buffer := Cli.int32 (Cli.buffer fl) |}).
  assert (Htail : exists tail,
             Cli.calls (Cli.CmdEventCreate_Run srv fuel fl (tag :: rest) h)
             = h ++ Cli.rpc CmdEventCreate_timeout (Cli.CreateEvent r) :: tail).
  { rewrite (streaming_command_unfold _ _ _ (streaming_create fl tag rest)). fold r.
    destruct (Cli.srv_open srv h CmdEventCreate_timeout (Cli.CreateEvent r)) as [msg|[]].
    - eexists. reflexivity.
    - destruct (Recv_loop_shape srv fuel (h ++ [Cli.rpc CmdEventCreate_timeout (Cli.CreateEvent r)]))
        as (k & [Hk|(msg & Hk)]); eexists; rewrite Hk, <- app_assoc; reflexivity. }
  destruct Htail as [tail Htail]. exists r, tail. cbn.
  repeat split; auto; try apply Hrange; apply Hmod.
Qed.
